(* Verification of the grouping-and-merge engine of mm-project
   (src/app.py: group_data_with_wildcard, clean_dataframe, merge_email_data,
   sanity_check, apply_saved_config_to_columns, validate_email,
   encode_credential, decode_credential, add_log).

   Modelling conventions.
   - Python strings are Stdlib strings (UTF-8 bytes).  [str.strip] removes
     the ASCII whitespace Python recognises; [str.lower] lowers ASCII letters.
     Every blank sentinel the code compares against is ASCII or caseless, so
     membership tests on lowered strings agree with Python's.
   - A spreadsheet cell is [value]: text, an integral number, or NaN/None.
     [str()] of a number is its decimal form (the int64 reading of a column).
   - A DataFrame is a list of rows, each carrying its RangeIndex label and
     its cells; the table also carries the column list and the lookup into
     [df.attrs['original_str']] (the sheet re-read with dtype=str).
   - A pandas error (summing text cells) makes the whole call fail: the
     grouping function returns [option]. *)

From Stdlib Require Import String Ascii ZArith List Bool Lia Permutation
  DecimalString.
From Stdlib Require DecimalZ.
Import ListNotations.
Open Scope string_scope.
Open Scope list_scope.

(* ------------------------------------------------------------------ *)
(** * Python string primitives *)

Definition is_py_space (c : ascii) : bool :=
  let n := nat_of_ascii c in
  Nat.eqb n 32 || (Nat.leb 9 n && Nat.leb n 13) || (Nat.leb 28 n && Nat.leb n 31).

Fixpoint drop_space (l : list ascii) : list ascii :=
  match l with
  | [] => []
  | c :: r => if is_py_space c then drop_space r else l
  end.

Definition strip_list (l : list ascii) : list ascii :=
  rev (drop_space (rev (drop_space l))).

(** [str.strip()] *)
Definition strip (s : string) : string :=
  string_of_list_ascii (strip_list (list_ascii_of_string s)).

Definition lower_char (c : ascii) : ascii :=
  let n := nat_of_ascii c in
  if Nat.leb 65 n && Nat.leb n 90 then ascii_of_nat (n + 32) else c.

(** [str.lower()] *)
Fixpoint lower (s : string) : string :=
  match s with
  | EmptyString => EmptyString
  | String c r => String (lower_char c) (lower r)
  end.

(** [s.endswith(suf)] *)
Definition endswith (s suf : string) : bool :=
  Nat.leb (String.length suf) (String.length s) &&
  String.eqb (substring (String.length s - String.length suf)
                        (String.length suf) s) suf.

(** [s[:-n]]: for [n = 0] this is [s[:0]], the empty string. *)
Definition slice_drop_last (s : string) (n : nat) : string :=
  if Nat.eqb n 0 then "" else substring 0 (String.length s - n) s.

(** [x in [..]] on strings *)
Definition in_strs (x : string) (l : list string) : bool :=
  existsb (String.eqb x) l.

(* ------------------------------------------------------------------ *)
(** * Cells *)

Inductive value :=
| VStr (s : string)
| VNum (z : Z)
| VNaN.

Definition value_eqb (a b : value) : bool :=
  match a, b with
  | VStr x, VStr y => String.eqb x y
  | VNum x, VNum y => Z.eqb x y
  | VNaN, VNaN => true
  | _, _ => false
  end.

Definition dec_string (z : Z) : string := NilEmpty.string_of_int (Z.to_int z).

(** [str(value)] *)
Definition py_str (v : value) : string :=
  match v with
  | VStr s => s
  | VNum z => dec_string z
  | VNaN => "nan"
  end.

(** [pd.isna(value)] *)
Definition isna (v : value) : bool :=
  match v with VNaN => true | _ => false end.

(* ------------------------------------------------------------------ *)
(** * Key normalizer: [get_base_key] (app.py, lines 1572-1577) *)

Fixpoint base_key_loop (val_str : string) (suffixes : list string) : string :=
  match suffixes with
  | [] => val_str
  | suffix :: rest =>
      if endswith val_str suffix
      then strip (slice_drop_last val_str (String.length suffix))
      else base_key_loop val_str rest
  end.

Definition get_base_key (wildcard_suffixes : list string) (val : value) : string :=
  base_key_loop (strip (py_str val)) wildcard_suffixes.

Definition default_suffixes : list string := [" 합계"].

(* ------------------------------------------------------------------ *)
(** * Tables, dicts and the configuration *)

(** A row of the DataFrame: its index label (a RangeIndex position, as
    produced by [read_excel] and [merge]) and its cells by column name. *)
Record row := mkRow { r_idx : nat; r_cells : list (string * value) }.

Fixpoint assoc {A} (k : string) (l : list (string * A)) : option A :=
  match l with
  | [] => None
  | (k', v) :: r => if String.eqb k k' then Some v else assoc k r
  end.

Definition cell (r : row) (c : string) : value :=
  match assoc c (r_cells r) with Some v => v | None => VNaN end.

(** [t_original_str idx col] is [Some (str(orig_val))] when
    [df.attrs['original_str']] exists, has column [col], has label [idx]
    and the cell is not NaN; [None] in every other case (including the
    swallowed [loc] exception). *)
Record table := mkTable {
  t_columns : list string;
  t_rows : list row;
  t_original_str : nat -> string -> option string }.

(** Python dict assignment [d[k] = v]: an existing key keeps its place. *)
Fixpoint dict_set {A} (k : string) (v : A) (d : list (string * A))
  : list (string * A) :=
  match d with
  | [] => [(k, v)]
  | (k', v') :: r => if String.eqb k k' then (k, v) :: r
                     else (k', v') :: dict_set k v r
  end.

Record config := mkConfig {
  group_key_col : string;
  email_col : option string;
  amount_cols : list string;
  display_cols : list string;
  conflict_resolution : string;
  use_wildcard : bool;
  wildcard_suffixes : option (list string);
  calculate_totals : bool }.

(** [if wildcard_suffixes is None: wildcard_suffixes = [" 합계"]] *)
Definition suffixes_of (cfg : config) : list string :=
  match wildcard_suffixes cfg with Some l => l | None => default_suffixes end.

Definition base_col : string := "_base_group_key".

(** [col in df.columns] after the optional [_base_group_key] column. *)
Definition frame_has_col (cfg : config) (t : table) (col : string) : bool :=
  (use_wildcard cfg && String.eqb col base_col) || in_strs col (t_columns t).

(** [row[col]] for a column of the (possibly extended) frame. *)
Definition frame_value (cfg : config) (r : row) (col : string) : value :=
  if use_wildcard cfg && String.eqb col base_col
  then VStr (get_base_key (suffixes_of cfg) (cell r (group_key_col cfg)))
  else cell r col.

(** The column passed to [df.groupby]. *)
Definition group_value (cfg : config) (r : row) : value :=
  if use_wildcard cfg
  then VStr (get_base_key (suffixes_of cfg) (cell r (group_key_col cfg)))
  else cell r (group_key_col cfg).

(* ------------------------------------------------------------------ *)
(** * pandas helpers *)

(** [Series.unique()]: distinct values in first-seen order. *)
Fixpoint unique (l : list value) : list value :=
  match l with
  | [] => []
  | v :: r => v :: filter (fun w => negb (value_eqb v w)) (unique r)
  end.

Definition dropna (l : list value) : list value :=
  filter (fun v => negb (isna v)) l.

(** [df.groupby(col)]: NaN keys are dropped, each group keeps the original
    row order.  pandas visits the groups in sorted key order; no statement
    below depends on the order in which groups are visited. *)
Definition groupby (key : row -> value) (rs : list row)
  : list (value * list row) :=
  map (fun k => (k, filter (fun r => value_eqb (key r) k) rs))
      (unique (dropna (map key rs))).

Definition count_value (v : value) (l : list value) : nat :=
  length (filter (value_eqb v) l).

Fixpoint argmax_first (cnt : value -> nat) (best : value) (l : list value)
  : value :=
  match l with
  | [] => best
  | c :: r => if Nat.ltb (cnt best) (cnt c) then argmax_first cnt c r
              else argmax_first cnt best r
  end.

(** [Series.value_counts().index[0]]: a most frequent non-NaN value.  Among
    equally frequent values the first seen is taken here; pandas orders ties
    with numpy's unstable quicksort, so only inputs with a unique maximum
    are used below. *)
Definition value_counts_top (vals : list value) : value :=
  let d := dropna vals in
  match unique d with
  | [] => VNaN
  | u :: us => argmax_first (fun v => count_value v d) u us
  end.

(** [col.sum()]: NaN skipped; a text cell raises (TypeError on a mix,
    ValueError when the concatenated text reaches the [,.0f] format). *)
Fixpoint col_sum (vs : list value) : option Z :=
  match vs with
  | [] => Some 0%Z
  | VNaN :: r => col_sum r
  | VNum z :: r => option_map (Z.add z) (col_sum r)
  | VStr _ :: _ => None
  end.

Fixpoint commas_rev (l : list ascii) : list ascii :=
  match l with
  | a :: b :: c :: ((_ :: _) as r) => a :: b :: c :: ","%char :: commas_rev r
  | _ => l
  end.

(** [f"{v:,.0f}"] on an integral amount. *)
Definition fmt_thousands (z : Z) : string :=
  (if Z.ltb z 0 then "-" else "") ++
  string_of_list_ascii
    (rev (commas_rev (rev (list_ascii_of_string (dec_string (Z.abs z)))))).

(** [f"{total_val:,.0f}" if total_val != 0 else ''] *)
Definition format_total (z : Z) : string :=
  if Z.eqb z 0 then "" else fmt_thousands z.

(* ------------------------------------------------------------------ *)
(** * Output records *)

Record group_record := mkGroup {
  recipient_email : option string;
  g_rows : list (list (string * string));
  totals : list (string * string);
  row_count : nat;
  has_conflict : bool;
  conflict_emails : list string }.

Record conflict_entry := mkConflict {
  ce_group_key : string;
  ce_emails : list string;
  ce_selected : option string }.

(* ------------------------------------------------------------------ *)
(** * group_data_with_wildcard (app.py, lines 1562-1710) *)

(** [not base_key_str or base_key_str.lower() in ['nan','none','(비어 있음)']] *)
Definition is_blank_key (s : string) : bool :=
  String.eqb s "" || in_strs (lower s) ["nan"; "none"; "(비어 있음)"].

(** [email_col and email_col in group_df.columns] *)
Definition email_col_used (cfg : config) (t : table) : option string :=
  match email_col cfg with
  | Some ec => if negb (String.eqb ec "") && frame_has_col cfg t ec
               then Some ec else None
  | None => None
  end.

(** The filter of the [unique_emails] comprehension. *)
Definition email_kept (e : value) : bool :=
  let s := strip (py_str e) in
  negb (String.eqb s "") && negb (in_strs (lower s) ["nan"; "none"; ""]).

(** [[str(e).strip() for e in col.dropna().unique() if ...]] *)
Definition unique_emails_of (vals : list value) : list string :=
  map (fun e => strip (py_str e)) (filter email_kept (unique (dropna vals))).

Definition email_values (cfg : config) (t : table) (grp : list row) : option (list value) :=
  match email_col_used cfg t with
  | Some ec => Some (map (fun r => frame_value cfg r ec) grp)
  | None => None
  end.

(** [recipient_email] from [unique_emails] and the policy string. *)
Definition select_recipient (cfg : config) (vals : option (list value))
  (unique_emails : list string) : option string :=
  match unique_emails with
  | [] => None
  | [e] => Some e
  | e :: _ =>
      if String.eqb (conflict_resolution cfg) "first" then Some e
      else if String.eqb (conflict_resolution cfg) "most_common" then
        match vals with
        | Some vs => Some (py_str (value_counts_top vs))
        | None => Some e
        end
      else Some e
  end.

(** [sort_key]: 1 for a total row, whose raw key ends with a suffix. *)
Definition is_total_row (cfg : config) (r : row) : bool :=
  existsb (endswith (py_str (cell r (group_key_col cfg)))) (suffixes_of cfg).

Definition sort_key (cfg : config) (r : row) : nat :=
  if is_total_row cfg r then 1 else 0.

(** [row[col]] comes from [iterrows], which builds each row from
    [group_df.values].  When every column of the frame is int64 that array
    is int64 and [row[col]] is a [numpy.int64], which is not an instance of
    [int] or [float]; otherwise (a text column, a float64 column holding
    NaN, or the string column [_base_group_key] of wildcard grouping) the
    numbers come out as Python [int] or as [float] ([numpy.float64] is a
    [float]).  [group_df] keeps the dtypes of the whole frame. *)
Definition is_num (v : value) : bool :=
  match v with VNum _ => true | _ => false end.

Definition rows_int64 (cfg : config) (t : table) : bool :=
  negb (use_wildcard cfg) &&
  forallb (fun col => forallb (fun r => is_num (cell r col)) (t_rows t)) (t_columns t).

(** One display cell (app.py, lines 1633-1675); [orig] is the
    [original_str] lookup for the cell and [np_int] tells that numbers are
    [numpy.int64] scalars, which fail both [isinstance(value, (int, float))]
    tests. *)
Definition render_cell (np_int : bool) (orig : option string) (v : value) : string :=
  let text_branch (s : string) :=
    let str_val := strip s in
    if in_strs (lower str_val) ["nan"; "none"; "nat"; ""; "0"; "0.0"]
    then "" else str_val in
  let fallback :=
    match v with
    | VNum z => if np_int then text_branch (dec_string z) else dec_string z
    | VStr s => text_branch s
    | VNaN => ""
    end in
  match v with
  | VNaN => ""
  | _ =>
      if match v with VNum z => negb np_int && Z.eqb z 0 | _ => false end then ""
      else
        match option_map strip orig with
        | Some orig_str =>
            if String.eqb orig_str "" then fallback
            else if in_strs (lower orig_str)
                      ["nan"; "none"; "nat"; ""; "0"; "0.0"; "0.00"]
            then "" else orig_str
        | None => fallback
        end
  end.

(** [row_dict[col]] for one display column. *)
Definition render_value (cfg : config) (t : table) (r : row) (col : string) : string :=
  if frame_has_col cfg t col
  then render_cell (rows_int64 cfg t) (t_original_str t (r_idx r) col)
                   (frame_value cfg r col)
  else "".

Definition render_row (cfg : config) (t : table) (r : row) : list (string * string) :=
  fold_left (fun row_dict col => dict_set col (render_value cfg t r col) row_dict)
            (display_cols cfg) [].

Fixpoint totals_loop (cfg : config) (t : table) (src : list row)
  (cols : list string) (acc : list (string * string))
  : option (list (string * string)) :=
  match cols with
  | [] => Some acc
  | col :: rest =>
      if frame_has_col cfg t col then
        match col_sum (map (fun r => frame_value cfg r col) src) with
        | Some total_val =>
            totals_loop cfg t src rest (dict_set col (format_total total_val) acc)
        | None => None
        end
      else totals_loop cfg t src rest acc
  end.

(** The rows summed: with wildcard grouping only the data rows. *)
Definition total_source (cfg : config) (grp : list row) : list row :=
  if use_wildcard cfg then filter (fun r => negb (is_total_row cfg r)) grp
  else grp.

Definition compute_totals (cfg : config) (t : table) (grp : list row)
  : option (list (string * string)) :=
  if calculate_totals cfg
  then totals_loop cfg t (total_source cfg grp) (amount_cols cfg) []
  else Some [].

Section Grouping.

(** [Series.sort_values()] on the sort keys, returning the reordered
    (key, row) pairs; pandas uses numpy's quicksort, which is not stable,
    so only the property shared by every sort is assumed where needed. *)
Variable sort_values : list (nat * row) -> list (nat * row).

Definition order_rows (cfg : config) (grp : list row) : list row :=
  if use_wildcard cfg
  then map snd (sort_values (map (fun r => (sort_key cfg r, r)) grp))
  else grp.

(** The record of one group, with its conflict entry when conflicted. *)
Definition build_group (cfg : config) (t : table) (base_key_str : string)
  (grp : list row) : option (group_record * option conflict_entry) :=
  let vals := email_values cfg t grp in
  let unique_emails :=
    match vals with Some vs => unique_emails_of vs | None => [] end in
  let has_conf := Nat.ltb 1 (length unique_emails) in
  let recipient := select_recipient cfg vals unique_emails in
  let sorted := order_rows cfg grp in
  let rows := map (render_row cfg t) sorted in
  match compute_totals cfg t sorted with
  | None => None
  | Some tot =>
      Some (mkGroup recipient rows tot (length rows) has_conf
              (if has_conf then unique_emails else []),
            if has_conf then Some (mkConflict base_key_str unique_emails recipient)
            else None)
  end.

Fixpoint build_all (cfg : config) (t : table) (gs : list (value * list row))
  (grouped : list (string * group_record)) (conflicts : list conflict_entry)
  : option (list (string * group_record) * list conflict_entry) :=
  match gs with
  | [] => Some (grouped, conflicts)
  | (base_key, grp) :: rest =>
      let base_key_str := py_str base_key in
      if is_blank_key base_key_str then build_all cfg t rest grouped conflicts
      else
        match build_group cfg t base_key_str grp with
        | None => None
        | Some (g, ce) =>
            build_all cfg t rest (dict_set base_key_str g grouped)
              (match ce with Some c => conflicts ++ [c] | None => conflicts end)
        end
  end.

Definition group_data_with_wildcard (cfg : config) (t : table)
  : option (list (string * group_record) * list conflict_entry) :=
  build_all cfg t (groupby (group_value cfg) (t_rows t)) [] [].

End Grouping.

(** A sort of the 0/1 keys that keeps the original order among equal keys
    (numpy's quicksort does so on short inputs); used for evaluation. *)
Definition stable_sort01 (l : list (nat * row)) : list (nat * row) :=
  filter (fun p => Nat.eqb (fst p) 0) l ++ filter (fun p => negb (Nat.eqb (fst p) 0)) l.

(* ------------------------------------------------------------------ *)
(** * Statements read from the spec, compared with the code above *)

(** Spec, section 4.1, read literally: the first matching suffix is
    removed (the text left before it, re-trimmed); with no match the
    trimmed string is returned. *)
Definition normalizer_spec (suffixes : list string) (v : value) : Prop :=
  match find (endswith (strip (py_str v))) suffixes with
  | Some suf => forall pre, (pre ++ suf)%string = strip (py_str v) ->
                get_base_key suffixes v = strip pre
  | None => get_base_key suffixes v = strip (py_str v)
  end.

(** The key the spec normalizes: [get_base_key] with wildcard grouping,
    the trimmed string otherwise (section 4.1). *)
Definition spec_key (cfg : config) (v : value) : string :=
  if use_wildcard cfg then get_base_key (suffixes_of cfg) v
  else strip (py_str v).

Definition sum_row_count (gs : list (string * group_record)) : nat :=
  fold_right (fun p n => row_count (snd p) + n) 0 gs.

Definition count_rows (p : row -> bool) (rs : list row) : nat :=
  length (filter p rs).

(** The rows a group of [groupby] adds to the count: none for a blank key. *)
Definition group_weight (p : value * list row) : nat :=
  if is_blank_key (py_str (fst p)) then 0 else length (snd p).

(** The rows the code counts: the [groupby] key is present and its
    string form is not a blank sentinel. *)
Definition grouped_row (cfg : config) (r : row) : bool :=
  negb (isna (group_value cfg r)) &&
  negb (is_blank_key (py_str (group_value cfg r))).

(** The rows of the input table that fall in the group of key [k] under
    wildcard grouping. *)
Definition wildcard_group_rows (cfg : config) (t : table) (k : string) : list row :=
  filter (fun r => String.eqb (get_base_key (suffixes_of cfg)
                                 (cell r (group_key_col cfg))) k) (t_rows t).

(* ------------------------------------------------------------------ *)
(** * Concrete inputs *)

Definition mk_key_row (i : nat) (key email : value) : row :=
  mkRow i [("업체", key); ("금액", VNum 100); ("이메일", email)].

Definition mk_table (rs : list row) : table :=
  mkTable ["업체"; "금액"; "이메일"] rs (fun _ _ => None).

Definition mk_config (policy : string) (wildcard : bool) (tot : bool) : config :=
  mkConfig "업체" (Some "이메일") ["금액"] ["업체"; "금액"; "이메일"]
           policy wildcard None tot.

(** Emails observed in the order b, a, b (spec, section 8). *)
Definition bab_table : table :=
  mk_table [mk_key_row 0 (VStr "Acme") (VStr "b@x.com");
            mk_key_row 1 (VStr "Acme") (VStr "a@x.com");
            mk_key_row 2 (VStr "Acme") (VStr "b@x.com")].

(** One address written with and without a leading space. *)
Definition spaced_email_table : table :=
  mk_table [mk_key_row 0 (VStr "Acme") (VStr "a@x.com");
            mk_key_row 1 (VStr "Acme") (VStr " a@x.com")].

(** Two addresses next to three blank email cells. *)
Definition blank_email_table : table :=
  mk_table [mk_key_row 0 (VStr "Acme") (VStr "");
            mk_key_row 1 (VStr "Acme") (VStr "");
            mk_key_row 2 (VStr "Acme") (VStr "");
            mk_key_row 3 (VStr "Acme") (VStr "a@x.com");
            mk_key_row 4 (VStr "Acme") (VStr "b@x.com")].

(** A key cell holding only a space. *)
Definition space_key_table : table :=
  mk_table [mk_key_row 0 (VStr " ") (VStr "a@x.com")].


(** The end-to-end scenario of the spec (section 8). *)
Definition scenario_table : table :=
  mk_table [mkRow 0 [("업체", VStr "Acme"); ("금액", VNum 100000); ("이메일", VStr "a@x.com")];
            mkRow 1 [("업체", VStr "Acme 합계"); ("금액", VNum 100000); ("이메일", VStr "a@x.com")];
            mkRow 2 [("업체", VStr "Beta"); ("금액", VNum 0); ("이메일", VStr "")]].

Definition scenario_config : config := mk_config "first" true true.

(** The Beta row of the scenario, with amount 0. *)
Definition beta_row : row :=
  mkRow 2 [("업체", VStr "Beta"); ("금액", VNum 0); ("이메일", VStr "")].

(** A sheet whose columns are all numbers: a numeric company code and an
    amount typed as the text "0원", which [clean_dataframe] turns into the
    int64 value 0; [original_str] still holds the typed text. *)
Definition int64_table : table :=
  mkTable ["업체"; "금액"]
    [mkRow 0 [("업체", VNum 101); ("금액", VNum 0)]]
    (fun _ col => if String.eqb col "금액" then Some "0원"
                  else if String.eqb col "업체" then Some "101" else None).

Definition int64_config : config :=
  mkConfig "업체" None ["금액"] ["업체"; "금액"] "first" false None true.

Definition lookup_group (k : string)
  (res : option (list (string * group_record) * list conflict_entry))
  : option group_record :=
  match res with Some (gs, _) => assoc k gs | None => None end.

(* ------------------------------------------------------------------ *)
(** * apply_saved_config_to_columns (app.py, lines 1367-1400) *)

Definition category_keys : list string :=
  ["display_cols"; "amount_cols"; "percent_cols"; "date_cols"; "id_cols"].

(** [d.get(key, [])] on a dict of column lists; on the [result] dict,
    whose six keys are always present, it is [result[key]]. *)
Definition get_list (d : list (string * list string)) (key : string) : list string :=
  match assoc key d with Some l => l | None => [] end.

(** The [result] dict literal. *)
Definition initial_layout : list (string * list string) :=
  [("display_cols", []); ("amount_cols", []); ("percent_cols", []);
   ("date_cols", []); ("id_cols", []); ("available", [])].

(** The inner loop over [saved_list] for one [key]. *)
Fixpoint place_cols (available_columns : list string) (key : string)
  (saved_list : list string) (result : list (string * list string))
  (missing_cols : list string) : list (string * list string) * list string :=
  match saved_list with
  | [] => (result, missing_cols)
  | col :: rest =>
      if in_strs col available_columns
      then place_cols available_columns key rest
             (dict_set key (get_list result key ++ [col]) result) missing_cols
      else place_cols available_columns key rest result
             (if in_strs col missing_cols then missing_cols
              else missing_cols ++ [col])
  end.

(** The outer loop over the five category keys. *)
Fixpoint place_keys (saved_config : list (string * list string))
  (available_columns : list string) (keys : list string)
  (result : list (string * list string)) (missing_cols : list string)
  : list (string * list string) * list string :=
  match keys with
  | [] => (result, missing_cols)
  | key :: rest =>
      let '(result', missing') :=
        place_cols available_columns key (get_list saved_config key) result missing_cols in
      place_keys saved_config available_columns rest result' missing'
  end.

Definition apply_saved_config_to_columns (saved_config : list (string * list string))
  (available_columns : list string) : list (string * list string) * list string :=
  let '(result, missing_cols) :=
    place_keys saved_config available_columns category_keys initial_layout [] in
  let placed_cols := flat_map (get_list result) category_keys in
  (dict_set "available"
     (filter (fun c => negb (in_strs c placed_cols)) available_columns) result,
   missing_cols).

(* ------------------------------------------------------------------ *)
(** * sanity_check (app.py, lines 1444-1483) *)

(** [s.replace(old, new)] with an empty [old]: [new] around every
    character. *)
Fixpoint replace_empty (new s : string) : string :=
  match s with
  | EmptyString => new
  | String c r => new ++ String c (replace_empty new r)
  end.

(** Left-to-right, non-overlapping replacement of a non-empty [old]; the
    fuel is the length of the string, each step consumes a character. *)
Fixpoint replace_fuel (fuel : nat) (old new s : string) : string :=
  match fuel with
  | O => s
  | S fuel' =>
      match s with
      | EmptyString => EmptyString
      | String c r =>
          if String.prefix old s
          then new ++ replace_fuel fuel' old new
                 (substring (String.length old) (String.length s - String.length old) s)
          else String c (replace_fuel fuel' old new r)
      end
  end.

(** [s.replace(old, new)] *)
Definition str_replace (old new s : string) : string :=
  if String.eqb old "" then replace_empty new s
  else replace_fuel (String.length s) old new s.

Record warning := mkWarning { w_group : string; w_type : string; w_message : string }.

Section Sanity.

(** [float(s) == 0] for the cleaned total string [s]: [None] when [float]
    raises (the bare [except] then skips the total). *)
Variable float_is_zero : string -> option bool.

Definition amount_warnings (group_name : string) (tot : list (string * string))
  : list warning :=
  flat_map (fun p =>
    match float_is_zero (str_replace "원" "" (str_replace "," "" (snd p))) with
    | Some true => [mkWarning group_name "zero_amount" ("금액 0원 (" ++ fst p ++ ")")]
    | _ => []
    end) tot.

Definition group_warnings (group_name : string) (data : group_record) : list warning :=
  (match totals data with
   | [] => []
   | tot => amount_warnings group_name tot
   end) ++
  (if match recipient_email data with Some e => String.eqb e "" | None => true end
   then [mkWarning group_name "no_email" "이메일 주소 없음"] else []) ++
  (if Nat.eqb (row_count data) 0
   then [mkWarning group_name "no_data" "데이터 행 없음"] else []).

Definition sanity_check (grouped_data : list (string * group_record)) : list warning :=
  flat_map (fun p => group_warnings (fst p) (snd p)) grouped_data.

End Sanity.

(** A [float(s) == 0] on integer strings, used for evaluation: Python's
    [float] accepts every decimal integer and rejects the empty string. *)
Definition int_float_is_zero (s : string) : option bool :=
  if String.eqb s "" then None
  else option_map (fun i => Z.eqb (Z.of_int i) 0) (NilEmpty.int_of_string s).

(* ------------------------------------------------------------------ *)
(** * validate_email (app.py, lines 1716-1719) *)

(** The part of Python's [re] syntax the pattern
    [^[a-zA-Z0-9._%+-]+@[a-zA-Z0-9.-]+\.[a-zA-Z]{2,}$] uses: a character
    class repeated at least [n] times ([+] is [{1,}]) and a literal
    character. *)
Inductive re_atom :=
| RClassRep (cls : ascii -> bool) (n : nat)
| RLit (c : ascii).

(** [re.match] of [^atoms$]: a repetition may end at any position (the
    engine backtracks over all of them); [$] matches at the end of the
    string or just before a final newline. *)
Fixpoint re_match_atoms (atoms : list re_atom) (s : list ascii) : bool :=
  match atoms with
  | [] => match s with [] => true | [c] => Ascii.eqb c "010"%char | _ => false end
  | RLit c :: rest =>
      match s with
      | c' :: s' => Ascii.eqb c c' && re_match_atoms rest s'
      | [] => false
      end
  | RClassRep cls n :: rest =>
      existsb (fun k => Nat.leb n k && forallb cls (firstn k s) &&
                        re_match_atoms rest (skipn k s))
              (seq 0 (S (length s)))
  end.

Definition in_range (lo hi : nat) (c : ascii) : bool :=
  Nat.leb lo (nat_of_ascii c) && Nat.leb (nat_of_ascii c) hi.

(** [[a-zA-Z]] *)
Definition is_alpha (c : ascii) : bool := in_range 97 122 c || in_range 65 90 c.

(** [[a-zA-Z0-9]] *)
Definition is_alnum (c : ascii) : bool := is_alpha c || in_range 48 57 c.

(** [[a-zA-Z0-9._%+-]] *)
Definition local_class (c : ascii) : bool :=
  is_alnum c || existsb (Ascii.eqb c) ["."; "_"; "%"; "+"; "-"]%char.

(** [[a-zA-Z0-9.-]] *)
Definition domain_class (c : ascii) : bool :=
  is_alnum c || existsb (Ascii.eqb c) ["."; "-"]%char.

Definition email_pattern : list re_atom :=
  [RClassRep local_class 1; RLit "@"; RClassRep domain_class 1; RLit ".";
   RClassRep is_alpha 2].

(** [validate_email]: [False] for an empty string, otherwise whether the
    stripped string matches the pattern. *)
Definition validate_email (email : string) : bool :=
  if String.eqb email "" then false
  else re_match_atoms email_pattern (list_ascii_of_string (strip email)).

(* ------------------------------------------------------------------ *)
(** * encode_credential / decode_credential (app.py, lines 1908-1922) *)

(** Bytes are [ascii]; a [str] is held as its UTF-8 bytes, so
    [str.encode()] and a successful [bytes.decode()] are the identity.
    [base64] follows CPython 3.11 and later ([binascii.b2a_base64] and the
    non-strict [binascii.a2b_base64]). *)

Definition byte_val (c : ascii) : Z := Z.of_nat (nat_of_ascii c).

(** A store into an [unsigned char]. *)
Definition byte_of (z : Z) : ascii := ascii_of_nat (Z.to_nat (Z.land z 255)).

(** [table_b2a_base64] *)
Definition b64_char (v : Z) : ascii :=
  if Z.ltb v 26 then ascii_of_nat (65 + Z.to_nat v)
  else if Z.ltb v 52 then ascii_of_nat (97 + Z.to_nat (v - 26))
  else if Z.ltb v 62 then ascii_of_nat (48 + Z.to_nat (v - 52))
  else if Z.eqb v 62 then "+"%char else "/"%char.

(** [table_a2b_base64]: [None] for a byte outside the alphabet. *)
Definition b64_value (c : ascii) : option Z :=
  let n := nat_of_ascii c in
  if in_range 65 90 c then Some (Z.of_nat (n - 65))
  else if in_range 97 122 c then Some (Z.of_nat (n - 71))
  else if in_range 48 57 c then Some (Z.of_nat (n + 4))
  else if Ascii.eqb c "+" then Some 62%Z
  else if Ascii.eqb c "/" then Some 63%Z
  else None.

(** The test [this_ch >= 64] of [a2b_base64], negated: the byte is in the
    alphabet. *)
Definition b64_in_table (c : ascii) : bool :=
  match b64_value c with Some _ => true | None => false end.

(** [base64.b64encode]: each 3 bytes become 4 characters; a final 1 or 2
    bytes are padded with [=]. *)
Fixpoint b64encode (l : list ascii) : list ascii :=
  match l with
  | a :: b :: c :: r =>
      let x := byte_val a in let y := byte_val b in let z := byte_val c in
      b64_char (Z.shiftr x 2) ::
      b64_char (Z.lor (Z.shiftl (Z.land x 3) 4) (Z.shiftr y 4)) ::
      b64_char (Z.lor (Z.shiftl (Z.land y 15) 2) (Z.shiftr z 6)) ::
      b64_char (Z.land z 63) :: b64encode r
  | [a; b] =>
      let x := byte_val a in let y := byte_val b in
      [b64_char (Z.shiftr x 2);
       b64_char (Z.lor (Z.shiftl (Z.land x 3) 4) (Z.shiftr y 4));
       b64_char (Z.shiftl (Z.land y 15) 2); "="%char]
  | [a] =>
      let x := byte_val a in
      [b64_char (Z.shiftr x 2); b64_char (Z.shiftl (Z.land x 3) 4); "="%char; "="%char]
  | [] => []
  end.

(** The loop of [a2b_base64] with [strict_mode=False]; [None] is the
    [binascii.Error] raised when the input ends inside a quad. *)
Fixpoint a2b_loop (l : list ascii) (quad_pos : nat) (leftchar : Z) (pads : nat)
  (acc : list ascii) : option (list ascii) :=
  match l with
  | [] => if Nat.eqb quad_pos 0 then Some (rev acc) else None
  | this_ch :: r =>
      if Ascii.eqb this_ch "=" then
        if Nat.leb 2 quad_pos then
          if Nat.leb 4 (quad_pos + S pads) then Some (rev acc)
          else a2b_loop r quad_pos leftchar (S pads) acc
        else a2b_loop r quad_pos leftchar pads acc
      else
        match b64_value this_ch with
        | None => a2b_loop r quad_pos leftchar pads acc
        | Some v =>
            match quad_pos with
            | 0 => a2b_loop r 1 v 0 acc
            | 1 => a2b_loop r 2 (Z.land v 15) 0
                     (byte_of (Z.lor (Z.shiftl leftchar 2) (Z.shiftr v 4)) :: acc)
            | 2 => a2b_loop r 3 (Z.land v 3) 0
                     (byte_of (Z.lor (Z.shiftl leftchar 4) (Z.shiftr v 2)) :: acc)
            | _ => a2b_loop r 0 0 0
                     (byte_of (Z.lor (Z.shiftl leftchar 6) v) :: acc)
            end
        end
  end.

(** [base64.b64decode] *)
Definition b64decode (l : list ascii) : option (list ascii) := a2b_loop l 0 0 0 [].

(** A UTF-8 continuation byte. *)
Definition utf8_cont (c : ascii) : bool := in_range 128 191 c.

(** The byte sequences [bytes.decode('utf-8')] accepts (no overlong form,
    no surrogate, nothing above U+10FFFF). *)
Fixpoint utf8_valid (l : list ascii) : bool :=
  match l with
  | [] => true
  | b :: r =>
      let n := nat_of_ascii b in
      if Nat.ltb n 128 then utf8_valid r
      else if in_range 194 223 b then
        match r with
        | c1 :: r' => utf8_cont c1 && utf8_valid r'
        | _ => false
        end
      else if in_range 224 239 b then
        match r with
        | c1 :: c2 :: r' =>
            (if Nat.eqb n 224 then in_range 160 191 c1
             else if Nat.eqb n 237 then in_range 128 159 c1
             else utf8_cont c1) && utf8_cont c2 && utf8_valid r'
        | _ => false
        end
      else if in_range 240 244 b then
        match r with
        | c1 :: c2 :: c3 :: r' =>
            (if Nat.eqb n 240 then in_range 144 191 c1
             else if Nat.eqb n 244 then in_range 128 143 c1
             else utf8_cont c1) && utf8_cont c2 && utf8_cont c3 && utf8_valid r'
        | _ => false
        end
      else false
  end.

Definition encode_credential (value : string) : string :=
  if String.eqb value "" then ""
  else string_of_list_ascii (b64encode (list_ascii_of_string value)).

(** [decode_credential]: any exception (bad padding, invalid UTF-8)
    gives the empty string. *)
Definition decode_credential (value : string) : string :=
  if String.eqb value "" then ""
  else
    match b64decode (list_ascii_of_string value) with
    | Some bytes => if utf8_valid bytes then string_of_list_ascii bytes else ""
    | None => ""
    end.


(* ------------------------------------------------------------------ *)
(** * clean_dataframe (app.py, lines 1539-1559) *)

Section Clean.

(** [pd.to_numeric(..., errors='coerce')] on one cleaned string. *)
Variable to_numeric : string -> value.

(** [df_cleaned[col] = pd.to_numeric(cleaner(df_cleaned[col].astype(str)))]
    when [col in df_cleaned.columns]; the column keeps its place, the
    index and [attrs] are kept. *)
Definition convert_col (cleaner : string -> string) (t : table) (col : string) : table :=
  if in_strs col (t_columns t) then
    mkTable (t_columns t)
      (map (fun r => mkRow (r_idx r)
                       (dict_set col (to_numeric (cleaner (py_str (cell r col))))
                          (r_cells r)))
           (t_rows t))
      (t_original_str t)
  else t.

(** [.str.replace(',', '').str.replace('₩', '').str.replace('원', '').str.strip()] *)
Definition amount_cleaner (s : string) : string :=
  strip (str_replace "원" "" (str_replace "₩" "" (str_replace "," "" s))).

(** [.str.replace(',', '').str.replace('%', '').str.strip()] *)
Definition percent_cleaner (s : string) : string :=
  strip (str_replace "%" "" (str_replace "," "" s)).

Definition clean_dataframe (df : table) (amount_cols percent_cols date_cols id_cols : list string)
  : table :=
  fold_left (convert_col percent_cleaner) percent_cols
    (fold_left (convert_col amount_cleaner) amount_cols df).

End Clean.

(** [pd.to_numeric(s, errors='coerce')] on an integer string or the empty
    string (the only strings it is applied to in the examples below). *)
Definition int_to_numeric (s : string) : value :=
  if String.eqb s "" then VNaN
  else match NilEmpty.int_of_string s with
       | Some i => VNum (Z.of_int i)
       | None => VNaN
       end.

(* ------------------------------------------------------------------ *)
(** * merge_email_data (app.py, lines 1525-1536) *)

Definition join_key_col : string := "_join_key".

(** [df[col].astype(str).str.strip()] for one row. *)
Definition join_key (col : string) (r : row) : string := strip (py_str (cell r col)).

(** The email a data row receives from
    [df_email[['_join_key', email_col]].drop_duplicates('_join_key')]
    in a left merge: the first email row with the same key, NaN if none. *)
Definition merged_email (df_email : table) (join_col_email email_col key : string) : value :=
  match find (fun er => String.eqb (join_key join_col_email er) key) (t_rows df_email) with
  | Some er => cell er email_col
  | None => VNaN
  end.

(** pandas' suffixes [('_x', '_y')] for a column present on both sides. *)
Definition rename_col (old new : string) (k : string) : string :=
  if String.eqb k old then new else k.

(** The columns and rows of the merged frame; [None] is the [KeyError] of a
    missing column.  The left merge keeps the data rows in order under a new
    RangeIndex; [_join_key] is dropped again.  An [email_col] named
    [_join_key] is outside this model. *)
Definition merge_email_data (df_data df_email : table)
  (join_col_data join_col_email email_col : string) : option (list string * list row) :=
  if in_strs join_col_data (t_columns df_data) && in_strs join_col_email (t_columns df_email)
     && in_strs email_col (t_columns df_email)
  then
    let data_cols := filter (fun c => negb (String.eqb c join_key_col)) (t_columns df_data) in
    let overlap := in_strs email_col data_cols in
    let left_name := if overlap then (email_col ++ "_x")%string else email_col in
    let right_name := if overlap then (email_col ++ "_y")%string else email_col in
    let merge_row (p : nat * row) :=
      mkRow (fst p)
        (map (fun kv => (rename_col email_col left_name (fst kv), snd kv))
             (filter (fun kv => negb (String.eqb (fst kv) join_key_col)) (r_cells (snd p)))
         ++ [(right_name,
              merged_email df_email join_col_email email_col
                (join_key join_col_data (snd p)))]) in
    Some (map (rename_col email_col left_name) data_cols ++ [right_name],
          map merge_row (combine (seq 0 (length (t_rows df_data))) (t_rows df_data)))
  else None.

(** A data sheet whose amounts are still text, one key cell empty. *)
Definition data_sheet : table :=
  mkTable ["업체"; "금액"]
    [mkRow 0 [("업체", VStr " Acme"); ("금액", VStr "1,234원")];
     mkRow 1 [("업체", VNaN); ("금액", VStr "₩5")]]
    (fun _ _ => None).

(** The same sheet with an email column of its own. *)
Definition data_sheet_with_email : table :=
  mkTable ["업체"; "금액"; "이메일"]
    [mkRow 0 [("업체", VStr " Acme"); ("금액", VStr "1,234원"); ("이메일", VStr "old@x.com")];
     mkRow 1 [("업체", VNaN); ("금액", VStr "₩5"); ("이메일", VStr "old@x.com")]]
    (fun _ _ => None).

(** An email sheet with a repeated key and an empty key cell. *)
Definition email_sheet : table :=
  mkTable ["업체"; "이메일"]
    [mkRow 0 [("업체", VStr "Beta"); ("이메일", VStr "b@x.com")];
     mkRow 1 [("업체", VNaN); ("이메일", VStr "n@x.com")];
     mkRow 2 [("업체", VStr "Acme "); ("이메일", VStr "a@x.com")];
     mkRow 3 [("업체", VStr "Acme"); ("이메일", VStr "a2@x.com")]]
    (fun _ _ => None).

(* ------------------------------------------------------------------ *)
(** * add_log (app.py, lines 1426-1441) *)

Record log_entry := mkLogEntry {
  le_time : string; le_level : string; le_icon : string; le_message : string }.

(** [{"info": .., "success": .., "warning": .., "error": ..}.get(level, "📝")] *)
Definition level_icon (level : string) : string :=
  if String.eqb level "info" then "ℹ️"
  else if String.eqb level "success" then "✅"
  else if String.eqb level "warning" then "⚠️"
  else if String.eqb level "error" then "❌"
  else "📝".

(** [st.session_state.activity_log] after one call; [None] is the state
    before the key exists, [timestamp] the [strftime('%H:%M:%S')] of the
    call. *)
Definition add_log (timestamp message level : string) (activity_log : option (list log_entry))
  : list log_entry :=
  let log0 := match activity_log with Some l => l | None => [] end in
  let log1 := log0 ++ [mkLogEntry timestamp level (level_icon level) message] in
  if Nat.ltb 100 (length log1) then skipn (length log1 - 100) log1 else log1.

(** The log after a sequence of calls [(timestamp, message, level)]. *)
Definition replay_log (calls : list (string * string * string))
  (activity_log : option (list log_entry)) : option (list log_entry) :=
  fold_left (fun log c => match c with (ts, m, lv) => Some (add_log ts m lv log) end)
            calls activity_log.
(* ================================================================== *)
(** * Lemmas: strings *)

Lemma str_length_append (a b : string) :
  String.length (a ++ b) = String.length a + String.length b.
Proof. induction a as [|c a IH]; simpl; [reflexivity | now rewrite IH]. Qed.

Lemma substring_prefix (pre suf : string) :
  substring 0 (String.length pre) (pre ++ suf) = pre.
Proof. induction pre as [|c pre IH]; simpl; [now destruct suf | now rewrite IH]. Qed.

Lemma drop_space_idem (l : list ascii) : drop_space (drop_space l) = drop_space l.
Proof.
  induction l as [|c l IH]; simpl; [reflexivity|].
  destruct (is_py_space c) eqn:E; [exact IH | simpl; now rewrite E].
Qed.

Lemma drop_space_suffix (l : list ascii) : exists p, l = p ++ drop_space l.
Proof.
  induction l as [|c l [p Hp]]; simpl; [now exists [] |].
  destruct (is_py_space c); [exists (c :: p); simpl; now f_equal | now exists []].
Qed.

Lemma drop_space_length (l : list ascii) : length (drop_space l) <= length l.
Proof.
  induction l as [|c l IH]; simpl; [lia|].
  destruct (is_py_space c); simpl; lia.
Qed.

Lemma drop_space_fixed_head (c : ascii) (w : list ascii) :
  drop_space (c :: w) = c :: w -> is_py_space c = false.
Proof.
  simpl. destruct (is_py_space c) eqn:E; [|reflexivity].
  intros H. pose proof (drop_space_length w) as Hl. rewrite H in Hl. simpl in Hl. lia.
Qed.

Lemma strip_list_idem (l : list ascii) : strip_list (strip_list l) = strip_list l.
Proof.
  unfold strip_list.
  set (y := drop_space l). set (z := drop_space (rev y)).
  assert (Hy : drop_space y = y) by apply drop_space_idem.
  assert (Hz : drop_space z = z) by apply drop_space_idem.
  assert (Hrz : drop_space (rev z) = rev z).
  { destruct (drop_space_suffix (rev y)) as [p Hp]. fold z in Hp.
    assert (Hy' : y = rev z ++ rev p).
    { rewrite <- (rev_involutive y), Hp. now rewrite rev_app_distr. }
    destruct (rev z) as [|c w] eqn:Ez; [reflexivity|].
    rewrite Hy' in Hy. simpl in Hy |- *.
    assert (Hc : is_py_space c = false).
    { apply (drop_space_fixed_head c (w ++ rev p)). exact Hy. }
    now rewrite Hc. }
  rewrite Hrz, rev_involutive, Hz. reflexivity.
Qed.

Lemma strip_idem (s : string) : strip (strip s) = strip s.
Proof.
  unfold strip. rewrite list_ascii_of_string_of_list_ascii.
  now rewrite strip_list_idem.
Qed.

(* ================================================================== *)
(** * Lemmas: the key normalizer *)

Lemma base_key_loop_find (vs : string) (sufs : list string) (suf : string) :
  find (endswith vs) sufs = Some suf ->
  base_key_loop vs sufs = strip (slice_drop_last vs (String.length suf)).
Proof.
  induction sufs as [|s rest IH]; simpl; [discriminate|].
  destruct (endswith vs s); [congruence | exact IH].
Qed.

Lemma base_key_loop_none (vs : string) (sufs : list string) :
  find (endswith vs) sufs = None -> base_key_loop vs sufs = vs.
Proof.
  induction sufs as [|s rest IH]; simpl; [reflexivity|].
  destruct (endswith vs s); [discriminate | exact IH].
Qed.

Lemma base_key_loop_stripped (vs : string) (sufs : list string) :
  strip vs = vs -> strip (base_key_loop vs sufs) = base_key_loop vs sufs.
Proof.
  intros Hvs. induction sufs as [|s rest IH]; simpl; [exact Hvs|].
  destruct (endswith vs s); [apply strip_idem | exact IH].
Qed.

Lemma get_base_key_stripped (sufs : list string) (v : value) :
  strip (get_base_key sufs v) = get_base_key sufs v.
Proof. apply base_key_loop_stripped, strip_idem. Qed.

Lemma slice_of_append (pre suf : string) :
  suf <> "" -> slice_drop_last (pre ++ suf) (String.length suf) = pre.
Proof.
  intros Hne. unfold slice_drop_last.
  destruct (Nat.eqb (String.length suf) 0) eqn:E.
  - apply Nat.eqb_eq in E. destruct suf; [congruence | discriminate].
  - rewrite str_length_append, Nat.add_sub. apply substring_prefix.
Qed.

(* ================================================================== *)
(** * Lemmas: dicts *)

Lemma in_strs_iff (x : string) (l : list string) : in_strs x l = true <-> In x l.
Proof.
  unfold in_strs. rewrite existsb_exists. split.
  - intros [y [Hy Heq]]. apply String.eqb_eq in Heq. now subst.
  - intros H. exists x. split; [exact H | apply String.eqb_refl].
Qed.

Lemma assoc_dict_set {A} (k k' : string) (v : A) (d : list (string * A)) :
  assoc k (dict_set k' v d) = if String.eqb k k' then Some v else assoc k d.
Proof.
  induction d as [|[k0 v0] d IH]; simpl; [reflexivity|].
  destruct (String.eqb k' k0) eqn:E1; simpl.
  - apply String.eqb_eq in E1. subst k0. destruct (String.eqb k k'); reflexivity.
  - rewrite IH. destruct (String.eqb k k0) eqn:E2; [|reflexivity].
    apply String.eqb_eq in E2. subst k0.
    destruct (String.eqb k k') eqn:E3; [|reflexivity].
    apply String.eqb_eq in E3. subst. now rewrite String.eqb_refl in E1.
Qed.

Lemma assoc_some_iff {A} (k : string) (d : list (string * A)) :
  assoc k d <> None <-> In k (map fst d).
Proof.
  induction d as [|[k0 v0] d IH]; simpl; [tauto|].
  destruct (String.eqb k k0) eqn:E.
  - apply String.eqb_eq in E. subst. split; [auto | discriminate].
  - apply String.eqb_neq in E. rewrite IH. split; [auto|].
    intros [H|H]; [congruence | exact H].
Qed.

Lemma in_dict_set {A} (k : string) (v : A) (d : list (string * A)) p :
  In p (dict_set k v d) -> p = (k, v) \/ In p d.
Proof.
  induction d as [|[k0 v0] d IH]; simpl.
  - intros [H|[]]. now left.
  - destruct (String.eqb k k0); simpl; intros [H|H]; auto.
    destruct (IH H); auto.
Qed.

Lemma keys_dict_set {A} (k : string) (v : A) (d : list (string * A)) x :
  In x (map fst (dict_set k v d)) <-> x = k \/ In x (map fst d).
Proof.
  rewrite <- !assoc_some_iff, assoc_dict_set.
  destruct (String.eqb x k) eqn:E.
  - apply String.eqb_eq in E. split; [auto | discriminate].
  - apply String.eqb_neq in E. split; [auto|]. intros [H|H]; [congruence | exact H].
Qed.

Lemma nodup_dict_set {A} (k : string) (v : A) (d : list (string * A)) :
  NoDup (map fst d) -> NoDup (map fst (dict_set k v d)).
Proof.
  induction d as [|[k0 v0] d IH]; simpl; intros Hnd.
  - constructor; [auto | constructor].
  - destruct (String.eqb k k0) eqn:E; simpl.
    + apply String.eqb_eq in E. now subst.
    + apply NoDup_cons_iff in Hnd as [Hn Hnd]. constructor; [|now apply IH].
      rewrite keys_dict_set. apply String.eqb_neq in E. intros [H|H]; [congruence | tauto].
Qed.

Lemma sum_row_count_dict_set (k : string) (g : group_record) d :
  ~ In k (map fst d) -> sum_row_count (dict_set k g d) = sum_row_count d + row_count g.
Proof.
  induction d as [|[k0 v0] d IH]; simpl; intros Hn; [lia|].
  destruct (String.eqb k k0) eqn:E.
  - apply String.eqb_eq in E. subst. tauto.
  - simpl. rewrite IH by tauto. lia.
Qed.

Section FoldSet.
Variable f : string -> string.

Lemma assoc_fold_set (cols : list string) acc c :
  assoc c (fold_left (fun d col => dict_set col (f col) d) cols acc) =
  if in_strs c cols then Some (f c) else assoc c acc.
Proof.
  revert acc. induction cols as [|col rest IH]; intros acc; simpl; [reflexivity|].
  rewrite IH, assoc_dict_set. unfold in_strs. simpl.
  destruct (String.eqb c col) eqn:E; simpl; [|reflexivity].
  apply String.eqb_eq in E. subst. now destruct (existsb _ rest).
Qed.

Lemma keys_fold_set (cols : list string) acc x :
  In x (map fst (fold_left (fun d col => dict_set col (f col) d) cols acc)) <->
  In x cols \/ In x (map fst acc).
Proof.
  rewrite <- !assoc_some_iff, assoc_fold_set, <- in_strs_iff.
  destruct (in_strs x cols); split; auto; try discriminate.
  intros [H|H]; [discriminate | exact H].
Qed.

Lemma nodup_fold_set (cols : list string) acc :
  NoDup (map fst acc) ->
  NoDup (map fst (fold_left (fun d col => dict_set col (f col) d) cols acc)).
Proof.
  revert acc. induction cols as [|col rest IH]; intros acc Hnd; simpl; [exact Hnd|].
  apply IH, nodup_dict_set, Hnd.
Qed.

End FoldSet.

(* ================================================================== *)
(** * Lemmas: values, unique and groupby *)

Lemma value_eqb_eq (a b : value) : value_eqb a b = true <-> a = b.
Proof.
  destruct a, b; simpl; split; intros H; try discriminate; try congruence.
  - apply String.eqb_eq in H. now subst.
  - inversion H. apply String.eqb_refl.
  - apply Z.eqb_eq in H. now subst.
  - inversion H. apply Z.eqb_refl.
Qed.

Lemma value_eqb_refl (a : value) : value_eqb a a = true.
Proof. now apply value_eqb_eq. Qed.

Lemma in_unique (x : value) (l : list value) : In x (unique l) <-> In x l.
Proof.
  induction l as [|v r IH]; simpl; [tauto|].
  rewrite filter_In, IH. split.
  - intros [H|[H _]]; auto.
  - intros [H|H]; [now left|].
    destruct (value_eqb v x) eqn:E.
    + left. now apply value_eqb_eq.
    + right. now split.
Qed.

Lemma nodup_unique (l : list value) : NoDup (unique l).
Proof.
  induction l as [|v r IH]; simpl; constructor.
  - rewrite filter_In. rewrite value_eqb_refl. simpl. intros [_ H]. discriminate.
  - now apply NoDup_filter.
Qed.

Lemma in_groupby (key : row -> value) (rs : list row) kv grp :
  In (kv, grp) (groupby key rs) ->
  grp = filter (fun r => value_eqb (key r) kv) rs /\
  In kv (map key rs) /\ isna kv = false.
Proof.
  unfold groupby. rewrite in_map_iff. intros [k [Hk Hin]].
  inversion Hk. subst. rewrite in_unique in Hin. unfold dropna in Hin.
  rewrite filter_In in Hin. destruct Hin as [Hin Hna].
  split; [reflexivity | split; [exact Hin|]]. now destruct (isna kv).
Qed.

Lemma length_filter_or {A} (p q : A -> bool) (l : list A) :
  (forall x, In x l -> p x && q x = false) ->
  length (filter (fun x => p x || q x) l) = length (filter p l) + length (filter q l).
Proof.
  induction l as [|x l IH]; intros Hd; [reflexivity|].
  assert (Hx := Hd x (or_introl eq_refl)).
  assert (IH' := IH (fun y Hy => Hd y (or_intror Hy))).
  simpl. destruct (p x), (q x); simpl in *; try discriminate; rewrite IH'; lia.
Qed.

Lemma length_filter_false {A} (p : A -> bool) (l : list A) :
  (forall x, In x l -> p x = false) -> length (filter p l) = 0.
Proof.
  induction l as [|x l IH]; simpl; intros H; [reflexivity|].
  rewrite (H x (or_introl eq_refl)). apply IH. auto.
Qed.

Lemma nodup_map_on {A B} (f : A -> B) (l : list A) :
  NoDup l -> (forall x y, In x l -> In y l -> f x = f y -> x = y) -> NoDup (map f l).
Proof.
  induction l as [|x l IH]; simpl; intros Hnd Hinj; [constructor|].
  apply NoDup_cons_iff in Hnd as [Hn Hnd]. constructor.
  - rewrite in_map_iff. intros [y [Hy Hin]].
    assert (x = y) by (apply Hinj; auto). subst. contradiction.
  - apply IH; auto.
Qed.

Lemma groups_weight (key : row -> value) (rs : list row) (U : list value) :
  NoDup U ->
  fold_right (fun p n => group_weight p + n) 0
    (map (fun k => (k, filter (fun r => value_eqb (key r) k) rs)) U) =
  count_rows (fun r => existsb (value_eqb (key r)) U &&
                       negb (is_blank_key (py_str (key r)))) rs.
Proof.
  induction U as [|k U IH]; intros Hnd; simpl.
  - unfold count_rows. symmetry. now apply length_filter_false.
  - apply NoDup_cons_iff in Hnd as [Hn Hnd].
    rewrite IH by exact Hnd. unfold count_rows.
    rewrite (filter_ext
      (fun r => (value_eqb (key r) k || existsb (value_eqb (key r)) U) &&
                negb (is_blank_key (py_str (key r))))
      (fun r => (value_eqb (key r) k && negb (is_blank_key (py_str (key r)))) ||
                (existsb (value_eqb (key r)) U && negb (is_blank_key (py_str (key r))))))
      by (intros r; now destruct (value_eqb _ _), (existsb _ _), (is_blank_key _)).
    rewrite (length_filter_or
      (fun r => value_eqb (key r) k && negb (is_blank_key (py_str (key r))))
      (fun r => existsb (value_eqb (key r)) U && negb (is_blank_key (py_str (key r))))).
    2:{ intros r _. destruct (value_eqb (key r) k) eqn:E1; [|reflexivity].
        destruct (existsb (value_eqb (key r)) U) eqn:E2; [|now destruct (is_blank_key _)].
        apply value_eqb_eq in E1. subst. apply existsb_exists in E2.
        destruct E2 as [y [Hy Hq]]. apply value_eqb_eq in Hq. subst. contradiction. }
    f_equal. unfold group_weight. simpl.
    destruct (is_blank_key (py_str k)) eqn:Eb.
    + symmetry. apply length_filter_false. intros r _.
      destruct (value_eqb (key r) k) eqn:E; [|reflexivity].
      apply value_eqb_eq in E. rewrite E, Eb. reflexivity.
    + f_equal. apply filter_ext. intros r.
      destruct (value_eqb (key r) k) eqn:E; [|reflexivity].
      apply value_eqb_eq in E. rewrite E, Eb. reflexivity.
Qed.

(* ================================================================== *)
(** * Lemmas: col_sum and the grouping loop *)

Lemma col_sum_perm (l l' : list value) : Permutation l l' -> col_sum l = col_sum l'.
Proof.
  induction 1 as [|x l l' _ IH|x y l|l l' l'' _ IH1 _ IH2].
  - reflexivity.
  - destruct x; simpl; rewrite ?IH; reflexivity.
  - destruct x, y; simpl; try reflexivity.
    destruct (col_sum l); simpl; [f_equal; lia | reflexivity].
  - congruence.
Qed.

Lemma col_sum_zero (l1 l2 : list value) :
  col_sum (l1 ++ VNum 0 :: l2) = col_sum (l1 ++ l2).
Proof.
  induction l1 as [|x l1 IH]; simpl.
  - now destruct (col_sum l2).
  - destruct x; simpl; rewrite ?IH; reflexivity.
Qed.

Lemma totals_loop_keep (cfg : config) (t : table) (src : list row) col cols acc tot :
  ~ In col cols -> totals_loop cfg t src cols acc = Some tot -> assoc col tot = assoc col acc.
Proof.
  revert acc. induction cols as [|c rest IH]; intros acc Hn H; simpl in H.
  - congruence.
  - destruct (frame_has_col cfg t c).
    + destruct (col_sum _) as [tv|]; [|discriminate].
      rewrite (IH _ (fun h => Hn (or_intror h)) H), assoc_dict_set.
      destruct (String.eqb col c) eqn:E; [|reflexivity].
      apply String.eqb_eq in E. subst. exfalso. apply Hn. now left.
    + exact (IH _ (fun h => Hn (or_intror h)) H).
Qed.

Lemma totals_loop_assoc (cfg : config) (t : table) (src : list row) col cols acc tot :
  totals_loop cfg t src cols acc = Some tot -> In col cols ->
  frame_has_col cfg t col = true ->
  exists s, col_sum (map (fun r => frame_value cfg r col) src) = Some s /\
            assoc col tot = Some (format_total s).
Proof.
  revert acc. induction cols as [|c rest IH]; intros acc H Hin Hcol; [destruct Hin|].
  simpl in H. destruct (in_dec String.string_dec col rest) as [Hr|Hr].
  - destruct (frame_has_col cfg t c).
    + destruct (col_sum (map (fun r => frame_value cfg r c) src));
        [exact (IH _ H Hr Hcol) | discriminate].
    + exact (IH _ H Hr Hcol).
  - destruct Hin as [->|Hin]; [|contradiction].
    rewrite Hcol in H.
    destruct (col_sum (map (fun r => frame_value cfg r col) src)) as [tv|] eqn:Es;
      [|discriminate].
    exists tv. split; [reflexivity|].
    rewrite (totals_loop_keep _ _ _ _ _ _ _ Hr H), assoc_dict_set, String.eqb_refl.
    reflexivity.
Qed.

Lemma render_row_assoc (cfg : config) (t : table) (r : row) c :
  assoc c (render_row cfg t r) =
  if in_strs c (display_cols cfg) then Some (render_value cfg t r c) else None.
Proof. unfold render_row. now rewrite assoc_fold_set. Qed.

Lemma render_row_keys (cfg : config) (t : table) (r : row) c :
  In c (map fst (render_row cfg t r)) <-> In c (display_cols cfg).
Proof. unfold render_row. rewrite keys_fold_set. simpl. tauto. Qed.

Lemma render_row_nodup (cfg : config) (t : table) (r : row) :
  NoDup (map fst (render_row cfg t r)).
Proof. unfold render_row. apply nodup_fold_set. constructor. Qed.

Section GroupingFacts.

Variable sort_values : list (nat * row) -> list (nat * row).

Lemma build_group_some (cfg : config) (t : table) k grp g ce :
  build_group sort_values cfg t k grp = Some (g, ce) ->
  g_rows g = map (render_row cfg t) (order_rows sort_values cfg grp) /\
  compute_totals cfg t (order_rows sort_values cfg grp) = Some (totals g) /\
  row_count g = length (order_rows sort_values cfg grp).
Proof.
  unfold build_group. cbv zeta.
  destruct (compute_totals cfg t (order_rows sort_values cfg grp)) as [tot|];
    [|discriminate].
  intros H. inversion H. subst. simpl. now rewrite length_map.
Qed.

Lemma build_all_in (cfg : config) (t : table) gs acc conf res cs k g :
  build_all sort_values cfg t gs acc conf = Some (res, cs) -> In (k, g) res ->
  In (k, g) acc \/
  exists kv grp ce, In (kv, grp) gs /\ py_str kv = k /\
                    build_group sort_values cfg t k grp = Some (g, ce).
Proof.
  revert acc conf. induction gs as [|[kv grp] rest IH]; intros acc conf H Hin; simpl in H.
  - inversion H. subst. now left.
  - destruct (is_blank_key (py_str kv)).
    + destruct (IH _ _ H Hin) as [Ha|[kv' [grp' [ce' [H1 H2]]]]]; [now left|].
      right. exists kv', grp', ce'. split; [now right | exact H2].
    + destruct (build_group sort_values cfg t (py_str kv) grp) as [[g0 ce0]|] eqn:Eb;
        [|discriminate].
      destruct (IH _ _ H Hin) as [Ha|[kv' [grp' [ce' [H1 H2]]]]].
      * apply in_dict_set in Ha. destruct Ha as [Ha|Ha]; [|now left].
        inversion Ha. subst. right. exists kv, grp, ce0. split; [now left | auto].
      * right. exists kv', grp', ce'. split; [now right | exact H2].
Qed.

Hypothesis sort_perm : forall l, Permutation (sort_values l) l.

Lemma order_rows_perm (cfg : config) (grp : list row) :
  Permutation (order_rows sort_values cfg grp) grp.
Proof.
  unfold order_rows. destruct (use_wildcard cfg); [|reflexivity].
  rewrite (sort_perm _), map_map. simpl. now rewrite map_id.
Qed.

Lemma build_all_sum (cfg : config) (t : table) gs acc conf res cs :
  build_all sort_values cfg t gs acc conf = Some (res, cs) ->
  NoDup (map (fun p => py_str (fst p)) gs) ->
  (forall p, In p gs -> ~ In (py_str (fst p)) (map fst acc)) ->
  sum_row_count res = sum_row_count acc + fold_right (fun p n => group_weight p + n) 0 gs.
Proof.
  revert acc conf. induction gs as [|[kv grp] rest IH]; intros acc conf H Hnd Hfresh;
    simpl in H.
  - inversion H. subst. simpl. lia.
  - simpl in Hnd. apply NoDup_cons_iff in Hnd as [Hn Hnd].
    simpl. unfold group_weight at 1. simpl.
    destruct (is_blank_key (py_str kv)).
    + rewrite (IH _ _ H Hnd (fun p Hp => Hfresh p (or_intror Hp))). lia.
    + destruct (build_group sort_values cfg t (py_str kv) grp) as [[g ce]|] eqn:Eb;
        [|discriminate].
      destruct (build_group_some _ _ _ _ _ _ Eb) as [_ [_ Hrc]].
      rewrite (IH _ _ H Hnd).
      * rewrite sum_row_count_dict_set by (exact (Hfresh _ (or_introl eq_refl))).
        rewrite Hrc, (Permutation_length (order_rows_perm cfg grp)). lia.
      * intros p Hp. rewrite keys_dict_set. intros [He|He].
        -- apply Hn. rewrite <- He. apply (in_map (fun p => py_str (fst p))). exact Hp.
        -- exact (Hfresh p (or_intror Hp) He).
Qed.

End GroupingFacts.

Lemma assoc_in {A} (k : string) (v : A) (d : list (string * A)) :
  assoc k d = Some v -> In (k, v) d.
Proof.
  induction d as [|[k0 v0] d IH]; simpl; [discriminate|].
  destruct (String.eqb k k0) eqn:E; intros H.
  - apply String.eqb_eq in E. inversion H. subst. now left.
  - right. exact (IH H).
Qed.

Lemma permutation_filter {A} (f : A -> bool) (l l' : list A) :
  Permutation l l' -> Permutation (filter f l) (filter f l').
Proof.
  induction 1 as [|x l l' _ IH|x y l|l l' l'' _ IH1 _ IH2]; simpl.
  - constructor.
  - destruct (f x); [now constructor | exact IH].
  - destruct (f x), (f y); try constructor; reflexivity.
  - now transitivity (filter f l').
Qed.

Lemma stable_sort01_perm (l : list (nat * row)) : Permutation (stable_sort01 l) l.
Proof.
  unfold stable_sort01. induction l as [|p l IH]; simpl; [constructor|].
  destruct (Nat.eqb (fst p) 0); simpl.
  - now constructor.
  - apply Permutation_sym, Permutation_cons_app, Permutation_sym, IH.
Qed.

(* ================================================================== *)
(** * Claims *)

(** C7 (counterexample): with the empty suffix in the list, every key
    ends with it and [val_str[:-0]] is the empty string, so "Acme" is not
    kept as the spec's suffix removal would keep it. *)
Lemma empty_suffix_breaks_normalizer : ~ normalizer_spec [""] (VStr "Acme").
Proof.
  unfold normalizer_spec. vm_compute. intros H.
  specialize (H "Acme" eq_refl). discriminate H.
Qed.

(** C7 (amended): for a list of non-empty suffixes, [get_base_key] removes
    the first suffix (in list order) the trimmed string ends with and
    re-trims, or returns the trimmed string when none matches; and a
    normalized key with no suffix normalizes to itself. *)
Theorem key_normalizer_first_suffix (sufs : list string) (v : value) :
  Forall (fun s => s <> "") sufs ->
  normalizer_spec sufs v /\
  ((forall suf, In suf sufs -> endswith (get_base_key sufs v) suf = false) ->
   get_base_key sufs (VStr (get_base_key sufs v)) = get_base_key sufs v).
Proof.
  intros Hne. split.
  - unfold normalizer_spec.
    destruct (find (endswith (strip (py_str v))) sufs) as [suf|] eqn:Hf.
    + intros pre Hpre. unfold get_base_key.
      rewrite (base_key_loop_find _ _ suf Hf), <- Hpre.
      apply find_some in Hf. destruct Hf as [Hin _].
      rewrite Forall_forall in Hne.
      now rewrite slice_of_append by (apply Hne; exact Hin).
    + unfold get_base_key. now apply base_key_loop_none.
  - intros Hnone. unfold get_base_key at 1. simpl py_str.
    rewrite get_base_key_stripped. apply base_key_loop_none.
    destruct (find (endswith (get_base_key sufs v)) sufs) as [suf|] eqn:Hf;
      [|reflexivity].
    apply find_some in Hf. destruct Hf as [Hin He].
    now rewrite (Hnone suf Hin) in He.
Qed.

Lemma key_normalizer_first_suffix_witness :
  Forall (fun s => s <> "") default_suffixes /\
  normalizer_spec default_suffixes (VStr " Acme 합계") /\
  get_base_key default_suffixes (VStr (get_base_key default_suffixes (VStr " Acme 합계")))
  = get_base_key default_suffixes (VStr " Acme 합계").
Proof.
  assert (Hne : Forall (fun s => s <> "") default_suffixes)
    by (repeat constructor; discriminate).
  split; [exact Hne|].
  destruct (key_normalizer_first_suffix default_suffixes (VStr " Acme 합계") Hne)
    as [H1 H2].
  split; [exact H1|]. apply H2.
  intros suf Hin. destruct Hin as [<-|[]]. vm_compute. reflexivity.
Defined.

(** C3 (code evaluated at the failing input): under the policy string
    "skip" offered by the step-2 radio button, the group with emails
    b, a, b still gets the first email as recipient, whatever the sort. *)
Theorem skip_policy_picks_first_email
  (srt : list (nat * row) -> list (nat * row)) :
  match lookup_group "Acme"
          (group_data_with_wildcard srt (mk_config "skip" false false) bab_table) with
  | Some g => recipient_email g = Some "b@x.com" /\ has_conflict g = true /\
              conflict_emails g = ["b@x.com"; "a@x.com"]
  | None => False
  end.
Proof. vm_compute. auto. Qed.

(** C5 (code evaluated at the failing input): one address written with
    and without a leading space is reported as a conflict between two
    equal entries. *)
Theorem spaced_email_reported_as_conflict
  (srt : list (nat * row) -> list (nat * row)) :
  match lookup_group "Acme"
          (group_data_with_wildcard srt (mk_config "first" false false)
             spaced_email_table) with
  | Some g => has_conflict g = true /\ conflict_emails g = ["a@x.com"; "a@x.com"]
  | None => False
  end.
Proof. vm_compute. auto. Qed.

(** C8 (code evaluated at the failing input): under "most_common" the
    three blank email cells win the count, so the recipient is the empty
    string although the distinct emails are a and b. *)
Theorem most_common_picks_blank_email
  (srt : list (nat * row) -> list (nat * row)) :
  match lookup_group "Acme"
          (group_data_with_wildcard srt (mk_config "most_common" false false)
             blank_email_table) with
  | Some g => recipient_email g = Some "" /\ has_conflict g = true /\
              conflict_emails g = ["a@x.com"; "b@x.com"]
  | None => False
  end.
Proof. vm_compute. auto. Qed.

(** C1 (counterexample): with wildcard grouping off, a key cell holding a
    single space trims to the empty key, yet the code groups it under " "
    and counts its row. *)
Lemma space_key_breaks_partition_completeness :
  match group_data_with_wildcard stable_sort01 (mk_config "first" false true)
          space_key_table with
  | Some (gs, _) =>
      sum_row_count gs <>
      count_rows (fun r => negb (is_blank_key
                   (spec_key (mk_config "first" false true) (cell r "업체"))))
                 (t_rows space_key_table)
  | None => False
  end.
Proof. vm_compute. intros H. discriminate H. Qed.


(** C1 (amended): for any sort, the row counts of the returned groups add
    up to the number of rows whose [groupby] key ([get_base_key] of the key
    cell with wildcard grouping, the raw cell otherwise) is present and,
    lowercased, is not "", "nan", "none" or "(비어 있음)"; with wildcard
    grouping off this needs that no two different key cells share a
    string form. *)
Theorem partition_completeness (srt : list (nat * row) -> list (nat * row))
  (Hsrt : forall l, Permutation (srt l) l) (cfg : config) (t : table) gs cs :
  group_data_with_wildcard srt cfg t = Some (gs, cs) ->
  (use_wildcard cfg = false ->
   forall r1 r2, In r1 (t_rows t) -> In r2 (t_rows t) ->
   isna (group_value cfg r1) = false -> isna (group_value cfg r2) = false ->
   py_str (group_value cfg r1) = py_str (group_value cfg r2) ->
   group_value cfg r1 = group_value cfg r2) ->
  sum_row_count gs = count_rows (grouped_row cfg) (t_rows t).
Proof.
  intros H Hinj. unfold group_data_with_wildcard in H.
  set (U := unique (dropna (map (group_value cfg) (t_rows t)))).
  assert (HU : forall k, In k U <-> In k (map (group_value cfg) (t_rows t)) /\
                                   isna k = false).
  { intros k. unfold U. rewrite in_unique. unfold dropna. rewrite filter_In.
    now destruct (isna k). }
  rewrite (build_all_sum srt Hsrt cfg t _ [] [] gs cs H).
  - simpl. unfold groupby. fold U. rewrite groups_weight by apply nodup_unique.
    unfold count_rows. f_equal. apply filter_ext_in. intros r Hr.
    unfold grouped_row. destruct (isna (group_value cfg r)) eqn:Ena; simpl.
    + destruct (existsb (value_eqb (group_value cfg r)) U) eqn:E; [|reflexivity].
      apply existsb_exists in E. destruct E as [y [Hy Heq]].
      apply value_eqb_eq in Heq. subst y. apply HU in Hy. destruct Hy as [_ Hy].
      congruence.
    + replace (existsb (value_eqb (group_value cfg r)) U) with true; [reflexivity|].
      symmetry. apply existsb_exists. exists (group_value cfg r). split.
      * apply HU. split; [apply in_map; exact Hr | exact Ena].
      * apply value_eqb_refl.
  - unfold groupby. rewrite map_map. simpl. fold U.
    apply nodup_map_on; [apply nodup_unique|]. intros x y Hx Hy Hxy.
    apply HU in Hx, Hy. destruct Hx as [Hx Hxn], Hy as [Hy Hyn].
    apply in_map_iff in Hx as [r1 [<- Hr1]]. apply in_map_iff in Hy as [r2 [<- Hr2]].
    destruct (use_wildcard cfg) eqn:Ew.
    + unfold group_value in *. rewrite Ew in *. simpl in Hxy. now rewrite Hxy.
    + now apply Hinj.
  - intros p _ [].
Qed.

Lemma partition_completeness_witness :
  match group_data_with_wildcard stable_sort01 scenario_config scenario_table with
  | Some (gs, _) =>
      sum_row_count gs = count_rows (grouped_row scenario_config) (t_rows scenario_table)
  | None => False
  end.
Proof.
  destruct (group_data_with_wildcard stable_sort01 scenario_config scenario_table)
    as [[gs cs]|] eqn:E.
  - apply (partition_completeness stable_sort01 stable_sort01_perm
             scenario_config scenario_table gs cs E).
    intros Hw. vm_compute in Hw. discriminate Hw.
  - vm_compute in E. discriminate E.
Defined.

(** C2: with wildcard grouping and total calculation on, the total of every
    amount column of the table, in every returned group, is the formatted
    sum of that column over the group's rows whose raw key ends with no
    suffix; rows whose raw key ends with a suffix are left out of the sum
    whatever they hold. *)
Theorem total_exclusion (srt : list (nat * row) -> list (nat * row))
  (Hsrt : forall l, Permutation (srt l) l) (cfg : config) (t : table) gs cs k g col :
  group_data_with_wildcard srt cfg t = Some (gs, cs) ->
  use_wildcard cfg = true -> calculate_totals cfg = true ->
  In (k, g) gs -> In col (amount_cols cfg) -> frame_has_col cfg t col = true ->
  exists s,
    col_sum (map (fun r => frame_value cfg r col)
                 (filter (fun r => negb (is_total_row cfg r))
                         (wildcard_group_rows cfg t k))) = Some s /\
    assoc col (totals g) = Some (format_total s).
Proof.
  intros H Hw Htot Hin Hamt Hcol. unfold group_data_with_wildcard in H.
  destruct (build_all_in srt cfg t _ [] [] gs cs k g H Hin)
    as [[]|[kv [grp [ce [Hgs [Hk Hb]]]]]].
  destruct (in_groupby _ _ _ _ Hgs) as [Hgrp [Hkv _]].
  destruct (build_group_some srt _ _ _ _ _ _ Hb) as [_ [Hct _]].
  unfold compute_totals in Hct. rewrite Htot in Hct.
  destruct (totals_loop_assoc _ _ _ col _ _ _ Hct Hamt Hcol) as [s [Hs Ha]].
  exists s. split; [|exact Ha].
  rewrite <- Hs. apply col_sum_perm, Permutation_map.
  unfold total_source. rewrite Hw.
  apply permutation_filter. rewrite (order_rows_perm srt Hsrt cfg grp), Hgrp.
  unfold wildcard_group_rows.
  apply in_map_iff in Hkv as [r0 [Hr0 _]].
  unfold group_value in Hr0. rewrite Hw in Hr0. subst kv. simpl in Hk. subst k.
  apply Permutation_refl'. apply filter_ext. intros r.
  unfold group_value. rewrite Hw. reflexivity.
Qed.

Lemma total_exclusion_witness :
  match group_data_with_wildcard stable_sort01 scenario_config scenario_table with
  | Some (gs, _) =>
      match assoc "Acme" gs with
      | Some g =>
          exists s,
            col_sum (map (fun r => frame_value scenario_config r "금액")
                         (filter (fun r => negb (is_total_row scenario_config r))
                                 (wildcard_group_rows scenario_config scenario_table
                                    "Acme"))) = Some s /\
            assoc "금액" (totals g) = Some (format_total s)
      | None => False
      end
  | None => False
  end.
Proof.
  destruct (group_data_with_wildcard stable_sort01 scenario_config scenario_table)
    as [[gs cs]|] eqn:E; [|vm_compute in E; discriminate E].
  destruct (assoc "Acme" gs) as [g|] eqn:Ea.
  - apply (total_exclusion stable_sort01 stable_sort01_perm scenario_config
             scenario_table gs cs "Acme" g "금액" E).
    + reflexivity.
    + reflexivity.
    + apply assoc_in, Ea.
    + simpl. auto.
    + vm_compute. reflexivity.
  - vm_compute in E. inversion E. subst gs. vm_compute in Ea. discriminate Ea.
Defined.

(** C10: every row dict of every returned group has exactly the display
    columns as keys, each once, and a display column the frame lacks maps
    to the empty string. *)
Theorem rendered_row_shape (srt : list (nat * row) -> list (nat * row))
  (cfg : config) (t : table) gs cs k g rd :
  group_data_with_wildcard srt cfg t = Some (gs, cs) -> In (k, g) gs -> In rd (g_rows g) ->
  (forall c, In c (map fst rd) <-> In c (display_cols cfg)) /\
  NoDup (map fst rd) /\
  (forall c, In c (display_cols cfg) -> frame_has_col cfg t c = false ->
             assoc c rd = Some "").
Proof.
  intros H Hin Hrd. unfold group_data_with_wildcard in H.
  destruct (build_all_in srt cfg t _ [] [] gs cs k g H Hin)
    as [[]|[kv [grp [ce [_ [_ Hb]]]]]].
  destruct (build_group_some srt _ _ _ _ _ _ Hb) as [Hrows _].
  rewrite Hrows in Hrd. apply in_map_iff in Hrd as [r [<- _]].
  split; [|split].
  - intros c. apply render_row_keys.
  - apply render_row_nodup.
  - intros c Hc Hf. rewrite render_row_assoc. apply in_strs_iff in Hc. rewrite Hc.
    unfold render_value. rewrite Hf. reflexivity.
Qed.

Lemma rendered_row_shape_witness :
  match group_data_with_wildcard stable_sort01 scenario_config scenario_table with
  | Some (gs, _) =>
      match assoc "Beta" gs with
      | Some g =>
          forall rd, In rd (g_rows g) ->
          (forall c, In c (map fst rd) <-> In c (display_cols scenario_config)) /\
          NoDup (map fst rd) /\
          (forall c, In c (display_cols scenario_config) ->
                     frame_has_col scenario_config scenario_table c = false ->
                     assoc c rd = Some "")
      | None => False
      end
  | None => False
  end.
Proof.
  destruct (group_data_with_wildcard stable_sort01 scenario_config scenario_table)
    as [[gs cs]|] eqn:E; [|vm_compute in E; discriminate E].
  destruct (assoc "Beta" gs) as [g|] eqn:Ea.
  - intros rd Hrd.
    exact (rendered_row_shape stable_sort01 scenario_config scenario_table gs cs
             "Beta" g rd E (assoc_in _ _ _ Ea) Hrd).
  - vm_compute in E. inversion E. subst gs. vm_compute in Ea. discriminate Ea.
Defined.

(* ================================================================== *)
(** * Further properties of the code *)

(** ** apply_saved_config_to_columns *)

Lemma get_list_dict_set (k x : string) (v : list string) d :
  get_list (dict_set k v d) x = if String.eqb x k then v else get_list d x.
Proof. unfold get_list. rewrite assoc_dict_set. now destruct (String.eqb x k). Qed.

Lemma get_list_initial_layout (x : string) : get_list initial_layout x = [].
Proof.
  unfold get_list, initial_layout. simpl.
  repeat match goal with |- context [String.eqb ?a ?b] => destruct (String.eqb a b) end;
  reflexivity.
Qed.

Lemma place_cols_result av key l result m x :
  get_list (fst (place_cols av key l result m)) x =
  if String.eqb x key
  then get_list result key ++ filter (fun c => in_strs c av) l
  else get_list result x.
Proof.
  revert result m. induction l as [|col rest IH]; intros result m; simpl.
  - destruct (String.eqb x key) eqn:E; [|reflexivity].
    apply String.eqb_eq in E. subst. now rewrite app_nil_r.
  - destruct (in_strs col av); rewrite IH.
    + rewrite !get_list_dict_set, String.eqb_refl.
      destruct (String.eqb x key); [now rewrite <- app_assoc | reflexivity].
    + reflexivity.
Qed.

Lemma place_cols_missing av key l result m :
  NoDup m ->
  NoDup (snd (place_cols av key l result m)) /\
  (forall c, In c (snd (place_cols av key l result m)) <->
             In c m \/ (In c l /\ ~ In c av)).
Proof.
  revert result m. induction l as [|col rest IH]; intros result m Hnd; simpl.
  - split; [exact Hnd | tauto].
  - destruct (in_strs col av) eqn:Ea.
    + destruct (IH (dict_set key (get_list result key ++ [col]) result) m Hnd)
        as [H1 H2].
      split; [exact H1|]. intros c. rewrite H2.
      apply in_strs_iff in Ea. split; [tauto|].
      intros [H|[[<-|H] H']]; [tauto | contradiction | tauto].
    + assert (Hnd' : NoDup (if in_strs col m then m else m ++ [col])).
      { destruct (in_strs col m) eqn:Em; [exact Hnd|].
        apply NoDup_app; [exact Hnd | repeat constructor; auto |].
        intros y Hy [<-|[]]. apply (proj2 (in_strs_iff _ _)) in Hy. congruence. }
      destruct (IH result _ Hnd') as [H1 H2]. split; [exact H1|].
      intros c. rewrite H2.
      assert (Ea' : ~ In col av) by (rewrite <- in_strs_iff; congruence).
      destruct (in_strs col m) eqn:Em.
      * apply in_strs_iff in Em. split; [tauto|].
        intros [H|[[<-|H] H']]; [tauto | tauto | tauto].
      * rewrite in_app_iff. simpl. split.
        -- intros [[H|[<-|[]]]|H]; tauto.
        -- intros [H|[[<-|H] H']]; tauto.
Qed.

Lemma place_keys_result saved av keys result m x :
  NoDup keys ->
  get_list (fst (place_keys saved av keys result m)) x =
  get_list result x ++
  (if in_strs x keys then filter (fun c => in_strs c av) (get_list saved x) else []).
Proof.
  revert result m. induction keys as [|key rest IH]; intros result m Hnd; simpl.
  - now rewrite app_nil_r.
  - apply NoDup_cons_iff in Hnd as [Hn Hnd].
    destruct (place_cols av key (get_list saved key) result m) as [r' m'] eqn:E.
    rewrite (IH _ _ Hnd).
    pose proof (place_cols_result av key (get_list saved key) result m x) as Hr.
    rewrite E in Hr. simpl in Hr. rewrite Hr.
    destruct (String.eqb x key) eqn:Ex; simpl.
    + apply String.eqb_eq in Ex. subst x.
      assert (Hr' : in_strs key rest = false).
      { destruct (in_strs key rest) eqn:Ei; [|reflexivity].
        apply in_strs_iff in Ei. contradiction. }
      rewrite Hr'. now rewrite app_nil_r.
    + reflexivity.
Qed.

Lemma place_keys_missing saved av keys result m :
  NoDup m ->
  NoDup (snd (place_keys saved av keys result m)) /\
  (forall c, In c (snd (place_keys saved av keys result m)) <->
             In c m \/ ((exists key, In key keys /\ In c (get_list saved key)) /\
                        ~ In c av)).
Proof.
  revert result m. induction keys as [|key rest IH]; intros result m Hnd; simpl.
  - split; [exact Hnd|]. intros c. split; [tauto|].
    intros [H|[[k [[] _]] _]]. exact H.
  - destruct (place_cols av key (get_list saved key) result m) as [r' m'] eqn:E.
    destruct (place_cols_missing av key (get_list saved key) result m Hnd) as [H1 H2].
    rewrite E in H1, H2. simpl in H1, H2.
    destruct (IH r' m' H1) as [H3 H4]. split; [exact H3|].
    intros c. rewrite H4, H2. split.
    + intros [[H|[H H']]|[[k [Hk Hc]] H']]; [tauto | | ].
      * right. split; [exists key; auto | exact H'].
      * right. split; [exists k; auto | exact H'].
    + intros [H|[[k [[<-|Hk] Hc]] H']]; [tauto | tauto |].
      right. split; [exists k; auto | exact H'].
Qed.

Lemma category_keys_nodup : NoDup category_keys.
Proof.
  unfold category_keys.
  repeat constructor; simpl; intuition discriminate.
Qed.

(** X1: after [apply_saved_config_to_columns], each of the five category
    lists is the saved list of that category with the columns missing from
    the sheet removed, in the saved order. *)
Theorem saved_layout_category (saved : list (string * list string))
  (available_columns : list string) (key : string) :
  In key category_keys ->
  get_list (fst (apply_saved_config_to_columns saved available_columns)) key =
  filter (fun c => in_strs c available_columns) (get_list saved key).
Proof.
  intros Hk. unfold apply_saved_config_to_columns.
  pose proof (place_keys_result saved available_columns category_keys
                initial_layout [] key category_keys_nodup) as H.
  destruct (place_keys saved available_columns category_keys initial_layout [])
    as [result m]. cbn [fst snd] in H |- *.
  rewrite get_list_dict_set.
  destruct (String.eqb key "available") eqn:E.
  - apply String.eqb_eq in E. subst key. simpl in Hk. intuition discriminate.
  - rewrite H, get_list_initial_layout. apply in_strs_iff in Hk. now rewrite Hk.
Qed.

Lemma saved_layout_category_witness :
  In "amount_cols" category_keys /\
  get_list (fst (apply_saved_config_to_columns
                   [("amount_cols", ["금액"; "부가세"])] ["업체"; "금액"])) "amount_cols" =
  filter (fun c => in_strs c ["업체"; "금액"]) ["금액"; "부가세"].
Proof.
  split; [simpl; tauto|].
  apply (saved_layout_category [("amount_cols", ["금액"; "부가세"])] ["업체"; "금액"]).
  simpl; tauto.
Defined.

(** X2: the [available] list is the sheet's columns, in sheet order, that
    no saved category list names. *)
Theorem saved_layout_available (saved : list (string * list string))
  (available_columns : list string) :
  get_list (fst (apply_saved_config_to_columns saved available_columns)) "available" =
  filter (fun c => negb (existsb (fun key => in_strs c (get_list saved key))
                                 category_keys))
         available_columns.
Proof.
  unfold apply_saved_config_to_columns.
  pose proof (fun x => place_keys_result saved available_columns category_keys
                initial_layout [] x category_keys_nodup) as H.
  destruct (place_keys saved available_columns category_keys initial_layout [])
    as [result m]. cbn [fst snd] in H |- *.
  rewrite get_list_dict_set, String.eqb_refl.
  apply filter_ext_in. intros c Hc. f_equal.
  apply Bool.eq_true_iff_eq. rewrite in_strs_iff, in_flat_map, existsb_exists.
  split; intros [key [Hk Hin]]; exists key; split; try exact Hk.
  - rewrite H, get_list_initial_layout in Hin.
    rewrite (proj2 (in_strs_iff _ _) Hk) in Hin. simpl in Hin.
    apply filter_In in Hin. apply in_strs_iff. tauto.
  - rewrite H, get_list_initial_layout, (proj2 (in_strs_iff _ _) Hk). simpl.
    apply filter_In. split; [now apply in_strs_iff | now apply in_strs_iff].
Qed.

(** X3: the returned [missing_cols] list has no repeated column and holds
    exactly the columns named by some saved category list that the sheet
    does not have. *)
Theorem saved_layout_missing (saved : list (string * list string))
  (available_columns : list string) :
  NoDup (snd (apply_saved_config_to_columns saved available_columns)) /\
  (forall c, In c (snd (apply_saved_config_to_columns saved available_columns)) <->
             (exists key, In key category_keys /\ In c (get_list saved key)) /\
             ~ In c available_columns).
Proof.
  unfold apply_saved_config_to_columns.
  pose proof (place_keys_missing saved available_columns category_keys
                initial_layout [] (NoDup_nil _)) as [H1 H2].
  destruct (place_keys saved available_columns category_keys initial_layout [])
    as [result m]. simpl in *.
  split; [exact H1|]. intros c. rewrite H2. simpl. tauto.
Qed.

(** ** String replacement and the rendering of totals *)

Lemma list_ascii_of_string_app (a b : string) :
  list_ascii_of_string (a ++ b) = list_ascii_of_string a ++ list_ascii_of_string b.
Proof. induction a as [|c a IH]; simpl; [reflexivity | now rewrite IH]. Qed.

Lemma substring_0_length (s : string) : substring 0 (String.length s) s = s.
Proof. induction s as [|c s IH]; simpl; [reflexivity | now rewrite IH]. Qed.

Lemma prefix_empty (s : string) : String.prefix "" s = true.
Proof. now destruct s. Qed.

(** Replacing one character by nothing deletes its occurrences. *)
Lemma replace_fuel_char (fuel : nat) (a : ascii) (s : string) :
  String.length s <= fuel ->
  replace_fuel fuel (String a "") "" s =
  string_of_list_ascii (filter (fun c => negb (Ascii.eqb c a)) (list_ascii_of_string s)).
Proof.
  revert s. induction fuel as [|fuel IH]; intros s Hl.
  - destruct s; simpl in *; [reflexivity | lia].
  - destruct s as [|c r]; [reflexivity|]. simpl in Hl.
    cbn [replace_fuel String.prefix list_ascii_of_string filter].
    destruct (ascii_dec a c) as [<-|Hne].
    + rewrite Ascii.eqb_refl. simpl. rewrite ?Nat.sub_0_r, ?substring_0_length.
      rewrite prefix_empty. apply IH. lia.
    + assert (E : Ascii.eqb c a = false) by (apply Ascii.eqb_neq; congruence).
      rewrite E. simpl. f_equal. apply IH. lia.
Qed.

Lemma str_replace_char (a : ascii) (s : string) :
  str_replace (String a "") "" s =
  string_of_list_ascii (filter (fun c => negb (Ascii.eqb c a)) (list_ascii_of_string s)).
Proof. unfold str_replace. simpl. now apply replace_fuel_char. Qed.

(** A string none of whose characters starts [old] is left unchanged. *)
Lemma replace_fuel_absent (fuel : nat) (o : ascii) (old' new s : string) :
  (forall c, In c (list_ascii_of_string s) -> c <> o) ->
  replace_fuel fuel (String o old') new s = s.
Proof.
  revert s. induction fuel as [|fuel IH]; intros s Hs; [reflexivity|].
  destruct s as [|c r]; [reflexivity|].
  cbn [replace_fuel String.prefix].
  destruct (ascii_dec o c) as [E|Hne].
  - exfalso. apply (Hs c); [now left | congruence].
  - f_equal. apply IH. intros c' Hc'. apply Hs. now right.
Qed.

Lemma commas_rev_filter (l : list ascii) :
  filter (fun c => negb (Ascii.eqb c ",")) (commas_rev l) =
  filter (fun c => negb (Ascii.eqb c ",")) l.
Proof.
  remember (length l) as n eqn:Hn. revert l Hn.
  induction n as [n IH] using lt_wf_ind. intros l Hn.
  destruct l as [|a [|b [|c [|d r]]]]; try reflexivity.
  change (commas_rev (a :: b :: c :: d :: r))
    with (a :: b :: c :: ","%char :: commas_rev (d :: r)).
  assert (IH' := IH (length (d :: r)) ltac:(simpl in *; lia) (d :: r) eq_refl).
  remember (commas_rev (d :: r)) as X. remember (d :: r) as Y.
  simpl. rewrite IH'. reflexivity.
Qed.

Lemma uint_digits (d : Decimal.uint) :
  forall c, In c (list_ascii_of_string (NilEmpty.string_of_uint d)) ->
  48 <= nat_of_ascii c <= 57.
Proof.
  induction d; simpl; intros c Hc; try contradiction;
    destruct Hc as [<-|Hc]; try (vm_compute; lia); auto.
Qed.

Lemma dec_string_pos (p : positive) :
  dec_string (Zpos p) = NilEmpty.string_of_uint (Pos.to_uint p).
Proof. reflexivity. Qed.

Lemma dec_string_neg (p : positive) :
  dec_string (Zneg p) = String "-" (NilEmpty.string_of_uint (Pos.to_uint p)).
Proof. reflexivity. Qed.

Lemma dec_string_chars (z : Z) :
  forall c, In c (list_ascii_of_string (dec_string z)) ->
  c = "-"%char \/ 48 <= nat_of_ascii c <= 57.
Proof.
  destruct z as [|p|p]; intros c Hc.
  - vm_compute in Hc. destruct Hc as [<-|[]]. right. vm_compute. lia.
  - rewrite dec_string_pos in Hc. right. exact (uint_digits _ c Hc).
  - rewrite dec_string_neg in Hc. destruct Hc as [<-|Hc]; [now left|].
    right. exact (uint_digits _ c Hc).
Qed.

Lemma filter_digits (l : list ascii) :
  (forall c, In c l -> 48 <= nat_of_ascii c <= 57) ->
  filter (fun c => negb (Ascii.eqb c ",")) l = l.
Proof.
  induction l as [|c l IH]; intros H; simpl; [reflexivity|].
  assert (Hc := H c (or_introl eq_refl)).
  assert (E : Ascii.eqb c "," = false).
  { apply Ascii.eqb_neq. intros ->. vm_compute in Hc. lia. }
  rewrite E. simpl. f_equal. apply IH. intros c' Hc'. apply H. now right.
Qed.

(** Removing the thousands separators of [f"{z:,.0f}"] gives [str(z)]. *)
Lemma fmt_thousands_uncomma (z : Z) :
  str_replace "," "" (fmt_thousands z) = dec_string z.
Proof.
  rewrite str_replace_char. unfold fmt_thousands.
  assert (Hd : forall p, filter (fun c => negb (Ascii.eqb c ","))
      (rev (commas_rev (rev (list_ascii_of_string (dec_string (Zpos p))))))
      = list_ascii_of_string (dec_string (Zpos p))).
  { intros p. rewrite filter_rev, commas_rev_filter, filter_rev, rev_involutive.
    apply filter_digits. intros c Hc. rewrite dec_string_pos in Hc.
    exact (uint_digits _ c Hc). }
  destruct z as [|p|p]; simpl Z.ltb; simpl Z.abs.
  - reflexivity.
  - simpl (_ ++ _)%string.
    rewrite list_ascii_of_string_of_list_ascii, Hd. apply string_of_list_ascii_of_string.
  - rewrite list_ascii_of_string_app, list_ascii_of_string_of_list_ascii.
    simpl. rewrite Hd, string_of_list_ascii_of_string. reflexivity.
Qed.

Lemma dec_string_no_won (z : Z) : str_replace "원" "" (dec_string z) = dec_string z.
Proof.
  unfold str_replace. simpl String.eqb. cbv iota.
  apply replace_fuel_absent. intros c Hc ->.
  destruct (dec_string_chars z _ Hc) as [H|H]; [discriminate | vm_compute in H; lia].
Qed.

Section TotalsFloat.

Variable float_is_zero : string -> option bool.
Hypothesis float_empty : float_is_zero "" = None.
Hypothesis float_int : forall z, float_is_zero (dec_string z) = Some (Z.eqb z 0).

(** The cleaned text of a rendered total never reads as a zero amount. *)
Lemma format_total_not_zero (z : Z) :
  float_is_zero (str_replace "원" "" (str_replace "," "" (format_total z))) <> Some true.
Proof.
  unfold format_total. destruct (Z.eqb z 0) eqn:Ez.
  - vm_compute str_replace. rewrite float_empty. discriminate.
  - rewrite fmt_thousands_uncomma, dec_string_no_won, float_int, Ez. discriminate.
Qed.

Lemma amount_warnings_nil (k : string) (tot : list (string * string)) :
  (forall p, In p tot -> exists z, snd p = format_total z) ->
  amount_warnings float_is_zero k tot = [].
Proof.
  induction tot as [|p tot IH]; intros H; [reflexivity|]. simpl.
  destruct (H p (or_introl eq_refl)) as [z Hz]. rewrite Hz.
  destruct (float_is_zero (str_replace "원" "" (str_replace "," "" (format_total z))))
    as [[|]|] eqn:E.
  - exfalso. exact (format_total_not_zero z E).
  - apply IH. intros q Hq. apply H. now right.
  - apply IH. intros q Hq. apply H. now right.
Qed.

End TotalsFloat.

Lemma int_float_is_zero_empty : int_float_is_zero "" = None.
Proof. reflexivity. Qed.

Lemma int_float_is_zero_int (z : Z) : int_float_is_zero (dec_string z) = Some (Z.eqb z 0).
Proof.
  unfold int_float_is_zero, dec_string. rewrite NilEmpty.isi. simpl.
  rewrite DecimalZ.of_to.
  destruct (String.eqb (NilEmpty.string_of_int (Z.to_int z)) "") eqn:E; [|reflexivity].
  exfalso. apply String.eqb_eq in E.
  assert (H := NilEmpty.isi (Z.to_int z)).
  assert (Hs : NilEmpty.int_of_string "" = Some (Decimal.Pos Decimal.Nil))
    by reflexivity.
  rewrite E, Hs in H. injection H as H. apply (f_equal Z.of_int) in H.
  rewrite DecimalZ.of_to in H. vm_compute in H. subst z. vm_compute in E.
  discriminate E.
Qed.

(** ** The output of group_data_with_wildcard *)

Lemma groupby_nonempty (key : row -> value) (rs : list row) kv grp :
  In (kv, grp) (groupby key rs) -> exists r, In r grp.
Proof.
  intros H. destruct (in_groupby key rs kv grp H) as [-> [Hin _]].
  apply in_map_iff in Hin as [r [Hr Hin]]. exists r.
  apply filter_In. split; [exact Hin|]. rewrite Hr. apply value_eqb_refl.
Qed.

Lemma groupby_rows (key : row -> value) (rs : list row) kv grp r :
  In (kv, grp) (groupby key rs) -> In r grp -> In r rs.
Proof.
  intros H Hr. destruct (in_groupby key rs kv grp H) as [-> _].
  apply filter_In in Hr. tauto.
Qed.

Lemma totals_loop_values (cfg : config) (t : table) (src : list row) cols acc tot :
  totals_loop cfg t src cols acc = Some tot ->
  (forall p, In p acc -> exists z, snd p = format_total z) ->
  forall p, In p tot -> exists z, snd p = format_total z.
Proof.
  revert acc. induction cols as [|col rest IH]; intros acc H Hacc; simpl in H.
  - inversion H. subst. exact Hacc.
  - destruct (frame_has_col cfg t col); [|exact (IH _ H Hacc)].
    destruct (col_sum (map (fun r => frame_value cfg r col) src)) as [tv|];
      [|discriminate].
    apply (IH _ H). intros p Hp. apply in_dict_set in Hp as [->|Hp].
    + now exists tv.
    + exact (Hacc p Hp).
Qed.

Lemma compute_totals_values (cfg : config) (t : table) (src : list row) tot :
  compute_totals cfg t src = Some tot ->
  forall p, In p tot -> exists z, snd p = format_total z.
Proof.
  unfold compute_totals. destruct (calculate_totals cfg).
  - intros H. apply (totals_loop_values _ _ _ _ _ _ H). intros p [].
  - intros H. inversion H. intros p [].
Qed.

Lemma select_recipient_conflict (cfg : config) vals (ue : list string) :
  1 < length ue ->
  exists e, select_recipient cfg vals ue = Some e /\
            (conflict_resolution cfg <> "most_common" -> hd_error ue = Some e).
Proof.
  intros Hl. destruct ue as [|e [|e2 rest]]; simpl in Hl; try lia.
  unfold select_recipient.
  destruct (String.eqb (conflict_resolution cfg) "first") eqn:E1.
  - exists e. split; reflexivity.
  - destruct (String.eqb (conflict_resolution cfg) "most_common") eqn:E2.
    + apply String.eqb_eq in E2.
      destruct vals as [vs|].
      * eexists. split; [reflexivity | intros H; contradiction].
      * exists e. split; reflexivity.
    + exists e. split; reflexivity.
Qed.

Lemma build_group_conflict (srt : list (nat * row) -> list (nat * row))
  (cfg : config) (t : table) k grp g c :
  build_group srt cfg t k grp = Some (g, Some c) ->
  ce_group_key c = k /\ 1 < length (ce_emails c) /\
  ce_selected c = select_recipient cfg (email_values cfg t grp) (ce_emails c) /\
  has_conflict g = true /\ conflict_emails g = ce_emails c /\
  recipient_email g = ce_selected c.
Proof.
  unfold build_group. cbv zeta.
  destruct (compute_totals cfg t (order_rows srt cfg grp)) as [tot|]; [|discriminate].
  set (ue := match email_values cfg t grp with
             | Some vs => unique_emails_of vs | None => [] end).
  destruct (Nat.ltb 1 (length ue)) eqn:E; intros H; inversion H; subst.
  simpl. apply Nat.ltb_lt in E. repeat split; auto.
Qed.

Lemma build_all_keys_mono (srt : list (nat * row) -> list (nat * row))
  (cfg : config) (t : table) gs acc conf res cs x :
  build_all srt cfg t gs acc conf = Some (res, cs) ->
  In x (map fst acc) -> In x (map fst res).
Proof.
  revert acc conf. induction gs as [|[kv grp] rest IH]; intros acc conf H Hx; simpl in H.
  - inversion H. now subst.
  - destruct (is_blank_key (py_str kv)); [exact (IH _ _ H Hx)|].
    destruct (build_group srt cfg t (py_str kv) grp) as [[g ce]|]; [|discriminate].
    apply (IH _ _ H). rewrite keys_dict_set. now right.
Qed.

(** Where a returned group or conflict entry comes from. *)
Lemma build_all_in_key (srt : list (nat * row) -> list (nat * row))
  (cfg : config) (t : table) gs acc conf res cs k g :
  build_all srt cfg t gs acc conf = Some (res, cs) -> In (k, g) res ->
  In (k, g) acc \/
  exists kv grp ce, In (kv, grp) gs /\ py_str kv = k /\ is_blank_key k = false /\
                    build_group srt cfg t k grp = Some (g, ce).
Proof.
  revert acc conf. induction gs as [|[kv grp] rest IH]; intros acc conf H Hin; simpl in H.
  - inversion H. subst. now left.
  - destruct (is_blank_key (py_str kv)) eqn:Eb.
    + destruct (IH _ _ H Hin) as [Ha|[kv' [grp' [ce' [H1 H2]]]]]; [now left|].
      right. exists kv', grp', ce'. split; [now right | exact H2].
    + destruct (build_group srt cfg t (py_str kv) grp) as [[g0 ce0]|] eqn:Eg;
        [|discriminate].
      destruct (IH _ _ H Hin) as [Ha|[kv' [grp' [ce' [H1 H2]]]]].
      * apply in_dict_set in Ha. destruct Ha as [Ha|Ha]; [|now left].
        inversion Ha. subst. right. exists kv, grp, ce0. now split; [left|].
      * right. exists kv', grp', ce'. split; [now right | exact H2].
Qed.

Lemma build_all_conflicts (srt : list (nat * row) -> list (nat * row))
  (cfg : config) (t : table) gs acc conf res cs c :
  build_all srt cfg t gs acc conf = Some (res, cs) ->
  (forall c', In c' conf -> In (ce_group_key c') (map fst acc)) ->
  In c cs ->
  In (ce_group_key c) (map fst res) /\
  (In c conf \/ exists kv grp g, In (kv, grp) gs /\ is_blank_key (py_str kv) = false /\
                                 build_group srt cfg t (py_str kv) grp = Some (g, Some c)).
Proof.
  revert acc conf. induction gs as [|[kv grp] rest IH]; intros acc conf H Hconf Hc;
    simpl in H.
  - inversion H. subst. split; [exact (Hconf c Hc) | now left].
  - destruct (is_blank_key (py_str kv)) eqn:Eb.
    + destruct (IH _ _ H Hconf Hc) as [Hk [Hin|[kv' [grp' [g' [H1 H2]]]]]];
        split; auto. right. exists kv', grp', g'. split; [now right | exact H2].
    + destruct (build_group srt cfg t (py_str kv) grp) as [[g0 ce0]|] eqn:Eg;
        [|discriminate].
      assert (Hconf' : forall c', In c' (match ce0 with Some c1 => conf ++ [c1]
                                                 | None => conf end) ->
                       In (ce_group_key c') (map fst (dict_set (py_str kv) g0 acc))).
      { intros c' Hc'. rewrite keys_dict_set.
        destruct ce0 as [c1|]; [|right; exact (Hconf c' Hc')].
        apply in_app_iff in Hc' as [Hc'|[<-|[]]]; [right; exact (Hconf c' Hc')|].
        left. exact (proj1 (build_group_conflict _ _ _ _ _ _ _ Eg)). }
      destruct (IH _ _ H Hconf' Hc) as [Hk [Hin|[kv' [grp' [g' [H1 H2]]]]]];
        split; auto.
      * destruct ce0 as [c1|]; [|now left].
        apply in_app_iff in Hin as [Hin|[<-|[]]]; [now left|].
        right. exists kv, grp, g0. now split; [left|].
      * right. exists kv', grp', g'. split; [now right | exact H2].
Qed.

Lemma build_all_none (srt : list (nat * row) -> list (nat * row))
  (cfg : config) (t : table) gs acc conf :
  build_all srt cfg t gs acc conf = None ->
  exists kv grp, In (kv, grp) gs /\ build_group srt cfg t (py_str kv) grp = None.
Proof.
  revert acc conf. induction gs as [|[kv grp] rest IH]; intros acc conf H; simpl in H.
  - discriminate.
  - destruct (is_blank_key (py_str kv)).
    + destruct (IH _ _ H) as [kv' [grp' [H1 H2]]]. exists kv', grp'. now split; [right|].
    + destruct (build_group srt cfg t (py_str kv) grp) as [[g ce]|] eqn:Eg.
      * destruct (IH _ _ H) as [kv' [grp' [H1 H2]]]. exists kv', grp'.
        now split; [right|].
      * exists kv, grp. now split; [left|].
Qed.

Lemma col_sum_none (l : list value) : col_sum l = None -> exists s, In (VStr s) l.
Proof.
  induction l as [|v l IH]; simpl; [discriminate|].
  destruct v as [s|z|]; intros H.
  - exists s. now left.
  - destruct (col_sum l); [discriminate|]. destruct (IH eq_refl) as [s Hs].
    exists s. now right.
  - destruct (IH H) as [s Hs]. exists s. now right.
Qed.

Lemma totals_loop_none (cfg : config) (t : table) (src : list row) cols acc :
  totals_loop cfg t src cols acc = None ->
  exists col r s, In col cols /\ frame_has_col cfg t col = true /\ In r src /\
                  frame_value cfg r col = VStr s.
Proof.
  revert acc. induction cols as [|col rest IH]; intros acc H; simpl in H; [discriminate|].
  destruct (frame_has_col cfg t col) eqn:Ef.
  - destruct (col_sum (map (fun r => frame_value cfg r col) src)) as [tv|] eqn:Es.
    + destruct (IH _ H) as [c [r [s Hc]]]. exists c, r, s. split; [now right | apply Hc].
    + apply col_sum_none in Es as [s Hs]. apply in_map_iff in Hs as [r [Hr Hin]].
      exists col, r, s. now repeat split; [left | | |].
  - destruct (IH _ H) as [c [r [s Hc]]]. exists c, r, s. split; [now right | apply Hc].
Qed.

Lemma total_source_incl (cfg : config) (grp : list row) r :
  In r (total_source cfg grp) -> In r grp.
Proof.
  unfold total_source. destruct (use_wildcard cfg); [|auto].
  intros H. apply filter_In in H. tauto.
Qed.

Lemma build_all_assoc_keep (srt : list (nat * row) -> list (nat * row))
  (cfg : config) (t : table) gs acc conf res cs k :
  (forall p, In p gs -> py_str (fst p) <> k) ->
  build_all srt cfg t gs acc conf = Some (res, cs) -> assoc k res = assoc k acc.
Proof.
  revert acc conf. induction gs as [|[kv grp] rest IH]; intros acc conf Hk H; simpl in H.
  - now inversion H.
  - assert (Hk' : forall p, In p rest -> py_str (fst p) <> k) by (intros; apply Hk; now right).
    destruct (is_blank_key (py_str kv)); [exact (IH _ _ Hk' H)|].
    destruct (build_group srt cfg t (py_str kv) grp) as [[g ce]|]; [|discriminate].
    rewrite (IH _ _ Hk' H), assoc_dict_set.
    destruct (String.eqb k (py_str kv)) eqn:E; [|reflexivity].
    apply String.eqb_eq in E. exfalso. exact (Hk (kv, grp) (or_introl eq_refl) (eq_sym E)).
Qed.

Lemma build_all_assoc (srt : list (nat * row) -> list (nat * row))
  (cfg : config) (t : table) gs acc conf res cs kv grp g ce :
  NoDup (map (fun p => py_str (fst p)) gs) ->
  build_all srt cfg t gs acc conf = Some (res, cs) ->
  In (kv, grp) gs -> is_blank_key (py_str kv) = false ->
  build_group srt cfg t (py_str kv) grp = Some (g, ce) ->
  assoc (py_str kv) res = Some g.
Proof.
  revert acc conf. induction gs as [|[kv0 grp0] rest IH]; intros acc conf Hnd H Hin Hb Hg;
    [destruct Hin|].
  simpl in Hnd. apply NoDup_cons_iff in Hnd as [Hn Hnd]. simpl in H.
  destruct Hin as [Heq|Hin].
  - inversion Heq. subst kv0 grp0. rewrite Hb, Hg in H.
    rewrite (build_all_assoc_keep _ _ _ _ _ _ _ _ _ ltac:(intros p Hp He; apply Hn;
               rewrite <- He; apply (in_map (fun p => py_str (fst p))); exact Hp) H).
    now rewrite assoc_dict_set, String.eqb_refl.
  - destruct (is_blank_key (py_str kv0)); [exact (IH _ _ Hnd H Hin Hb Hg)|].
    destruct (build_group srt cfg t (py_str kv0) grp0) as [[g0 ce0]|]; [|discriminate].
    exact (IH _ _ Hnd H Hin Hb Hg).
Qed.

(** Under wildcard grouping the group keys are distinct strings. *)
Lemma wildcard_keys_nodup (cfg : config) (rs : list row) :
  use_wildcard cfg = true ->
  NoDup (map (fun p => py_str (fst p)) (groupby (group_value cfg) rs)).
Proof.
  intros Ew. unfold groupby. rewrite map_map. simpl.
  apply nodup_map_on; [apply nodup_unique|]. intros x y Hx Hy Hxy.
  rewrite in_unique in Hx, Hy. unfold dropna in Hx, Hy.
  apply filter_In in Hx as [Hx _]. apply filter_In in Hy as [Hy _].
  apply in_map_iff in Hx as [r1 [<- _]]. apply in_map_iff in Hy as [r2 [<- _]].
  unfold group_value in *. rewrite Ew in *. simpl in Hxy. now rewrite Hxy.
Qed.

Section GroupOutputFacts.

Variable srt : list (nat * row) -> list (nat * row).
Hypothesis srt_perm : forall l, Permutation (srt l) l.

Lemma group_output_inv (cfg : config) (t : table) gs cs k g :
  group_data_with_wildcard srt cfg t = Some (gs, cs) -> In (k, g) gs ->
  is_blank_key k = false /\ 1 <= row_count g /\ row_count g = length (g_rows g) /\
  (forall p, In p (totals g) -> exists z, snd p = format_total z).
Proof.
  unfold group_data_with_wildcard. intros H Hin.
  destruct (build_all_in_key _ _ _ _ _ _ _ _ _ _ H Hin)
    as [[]|[kv [grp [ce [Hgs [Hk [Hb Hg]]]]]]].
  destruct (build_group_some _ _ _ _ _ _ _ Hg) as [Hrows [Htot Hrc]].
  split; [exact Hb|]. split; [|split].
  - rewrite Hrc, (Permutation_length (order_rows_perm srt srt_perm cfg grp)).
    destruct (groupby_nonempty _ _ _ _ Hgs) as [r Hr].
    destruct grp; [destruct Hr | simpl; lia].
  - now rewrite Hrc, Hrows, length_map.
  - exact (compute_totals_values _ _ _ _ Htot).
Qed.

End GroupOutputFacts.

(** X4: every group returned by [group_data_with_wildcard] has a key that
    is not a blank sentinel, at least one row, and a [row_count] equal to
    the number of its row dicts. *)
Theorem grouped_output_shape (srt : list (nat * row) -> list (nat * row))
  (Hsrt : forall l, Permutation (srt l) l) (cfg : config) (t : table) gs cs k g :
  group_data_with_wildcard srt cfg t = Some (gs, cs) -> In (k, g) gs ->
  is_blank_key k = false /\ 1 <= row_count g /\ row_count g = length (g_rows g).
Proof.
  intros H Hin. destruct (group_output_inv srt Hsrt cfg t gs cs k g H Hin)
    as [H1 [H2 [H3 _]]]. auto.
Qed.

Lemma grouped_output_shape_witness :
  match group_data_with_wildcard stable_sort01 scenario_config scenario_table with
  | Some ((k, g) :: _, _) =>
      is_blank_key k = false /\ 1 <= row_count g /\ row_count g = length (g_rows g)
  | _ => False
  end.
Proof.
  destruct (group_data_with_wildcard stable_sort01 scenario_config scenario_table)
    as [[[|[k g] gs] cs]|] eqn:E; try (vm_compute in E; discriminate E).
  apply (grouped_output_shape stable_sort01 stable_sort01_perm scenario_config
           scenario_table ((k, g) :: gs) cs k g E).
  now left.
Defined.

(** X5: when the amount cells are whole numbers or NaN (the numbers
    [value] describes, so every total is a whole number), on the groups
    returned by [group_data_with_wildcard], [sanity_check] only ever reports
    missing e-mail addresses, one warning per group whose recipient is None
    or empty, in group order: a zero total is rendered as the empty string,
    which [float] rejects, a non-zero whole total as digits that do not read
    as 0, so no zero-amount warning is raised, and no group is empty. *)
Theorem sanity_check_only_no_email (srt : list (nat * row) -> list (nat * row))
  (Hsrt : forall l, Permutation (srt l) l)
  (float_is_zero : string -> option bool)
  (Hempty : float_is_zero "" = None)
  (Hint : forall z, float_is_zero (dec_string z) = Some (Z.eqb z 0))
  (cfg : config) (t : table) gs cs :
  group_data_with_wildcard srt cfg t = Some (gs, cs) ->
  sanity_check float_is_zero gs =
  map (fun p => mkWarning (fst p) "no_email" "이메일 주소 없음")
      (filter (fun p => match recipient_email (snd p) with
                        | Some e => String.eqb e "" | None => true end) gs).
Proof.
  intros H. assert (Hinv := fun k g => group_output_inv srt Hsrt cfg t gs cs k g H).
  clear H. induction gs as [|[k g] gs IH]; [reflexivity|].
  destruct (Hinv k g (or_introl eq_refl)) as [_ [Hrc [_ Htot]]].
  assert (IH' := IH (fun k' g' H' => Hinv k' g' (or_intror H'))).
  unfold sanity_check in *. cbn [flat_map fst snd]. rewrite IH'.
  unfold group_warnings at 1.
  assert (Ha : match totals g with [] => [] | tot => amount_warnings float_is_zero k tot end
               = []).
  { destruct (totals g) as [|p tot] eqn:Et; [reflexivity|].
    apply (amount_warnings_nil float_is_zero Hempty Hint). exact Htot. }
  rewrite Ha. destruct (row_count g) as [|n]; [lia|]. cbn [Nat.eqb app filter map].
  cbn [fst snd].
  destruct (match recipient_email g with Some e => String.eqb e "" | None => true end);
    reflexivity.
Qed.

Lemma sanity_check_only_no_email_witness :
  match group_data_with_wildcard stable_sort01 scenario_config scenario_table with
  | Some (gs, _) =>
      sanity_check int_float_is_zero gs =
      map (fun p => mkWarning (fst p) "no_email" "이메일 주소 없음")
          (filter (fun p => match recipient_email (snd p) with
                            | Some e => String.eqb e "" | None => true end) gs)
  | None => False
  end.
Proof.
  destruct (group_data_with_wildcard stable_sort01 scenario_config scenario_table)
    as [[gs cs]|] eqn:E; [|vm_compute in E; discriminate E].
  exact (sanity_check_only_no_email stable_sort01 stable_sort01_perm int_float_is_zero
           int_float_is_zero_empty int_float_is_zero_int scenario_config scenario_table
           gs cs E).
Defined.

(** X6: every conflict entry returned by [group_data_with_wildcard] names a
    returned, non-blank group key, lists at least two addresses, and has a
    selected address; unless the policy is [most_common] the selected
    address is the first one listed. *)
Theorem conflict_entry_shape (srt : list (nat * row) -> list (nat * row))
  (cfg : config) (t : table) gs cs c :
  group_data_with_wildcard srt cfg t = Some (gs, cs) -> In c cs ->
  In (ce_group_key c) (map fst gs) /\ is_blank_key (ce_group_key c) = false /\
  2 <= length (ce_emails c) /\
  exists e, ce_selected c = Some e /\
            (conflict_resolution cfg <> "most_common" -> hd_error (ce_emails c) = Some e).
Proof.
  unfold group_data_with_wildcard. intros H Hc.
  destruct (build_all_conflicts _ _ _ _ _ _ _ _ c H (fun c' (h : In c' []) => match h with end) Hc)
    as [Hk [[]|[kv [grp [g [_ [Hb Hg]]]]]]].
  destruct (build_group_conflict _ _ _ _ _ _ _ Hg) as [Hkey [Hlen [Hsel _]]].
  split; [exact Hk|]. split; [now rewrite Hkey|]. split; [lia|].
  rewrite Hsel. apply select_recipient_conflict. exact Hlen.
Qed.

Lemma conflict_entry_shape_witness :
  match group_data_with_wildcard stable_sort01 (mk_config "first" true true) bab_table with
  | Some (gs, c :: _) =>
      In (ce_group_key c) (map fst gs) /\ is_blank_key (ce_group_key c) = false /\
      2 <= length (ce_emails c) /\
      exists e, ce_selected c = Some e /\
        (conflict_resolution (mk_config "first" true true) <> "most_common" ->
         hd_error (ce_emails c) = Some e)
  | _ => False
  end.
Proof.
  destruct (group_data_with_wildcard stable_sort01 (mk_config "first" true true) bab_table)
    as [[gs [|c cs]]|] eqn:E; try (vm_compute in E; discriminate E).
  apply (conflict_entry_shape stable_sort01 (mk_config "first" true true) bab_table
           gs (c :: cs) c E). now left.
Defined.

(** X7: with wildcard grouping, each conflict entry agrees with the group
    record of its key: that group is marked as conflicted, lists the same
    addresses, and has the entry's selected address as recipient. *)
Theorem conflict_entry_matches_group (srt : list (nat * row) -> list (nat * row))
  (cfg : config) (t : table) gs cs c :
  use_wildcard cfg = true ->
  group_data_with_wildcard srt cfg t = Some (gs, cs) -> In c cs ->
  exists g, assoc (ce_group_key c) gs = Some g /\ has_conflict g = true /\
            conflict_emails g = ce_emails c /\ recipient_email g = ce_selected c.
Proof.
  unfold group_data_with_wildcard. intros Ew H Hc.
  destruct (build_all_conflicts _ _ _ _ _ _ _ _ c H (fun c' (h : In c' []) => match h with end) Hc)
    as [_ [[]|[kv [grp [g [Hin [Hb Hg]]]]]]].
  destruct (build_group_conflict _ _ _ _ _ _ _ Hg) as [Hkey [_ [_ [Hhc [Hce Hrec]]]]].
  exists g. rewrite Hkey. split; [|auto].
  exact (build_all_assoc _ _ _ _ _ _ _ _ _ _ _ _ (wildcard_keys_nodup cfg (t_rows t) Ew)
           H Hin Hb Hg).
Qed.

Lemma conflict_entry_matches_group_witness :
  match group_data_with_wildcard stable_sort01 (mk_config "first" true true) bab_table with
  | Some (gs, c :: _) =>
      exists g, assoc (ce_group_key c) gs = Some g /\ has_conflict g = true /\
                conflict_emails g = ce_emails c /\ recipient_email g = ce_selected c
  | _ => False
  end.
Proof.
  destruct (group_data_with_wildcard stable_sort01 (mk_config "first" true true) bab_table)
    as [[gs [|c cs]]|] eqn:E; try (vm_compute in E; discriminate E).
  apply (conflict_entry_matches_group stable_sort01 (mk_config "first" true true) bab_table
           gs (c :: cs) c eq_refl E). now left.
Defined.

(** X8: on a frame that has the group-key column and whose cells are
    text, whole numbers or NaN (the cells [value] describes; no float and
    no infinity), [group_data_with_wildcard] fails (pandas raises) only
    when total calculation is on and some row of the table holds text in
    an amount column of the frame. *)
Theorem grouping_fails_only_on_text_amount (srt : list (nat * row) -> list (nat * row))
  (Hsrt : forall l, Permutation (srt l) l) (cfg : config) (t : table)
  (Hkey : In (group_key_col cfg) (t_columns t)) :
  group_data_with_wildcard srt cfg t = None ->
  calculate_totals cfg = true /\
  exists col r s, In col (amount_cols cfg) /\ frame_has_col cfg t col = true /\
                  In r (t_rows t) /\ frame_value cfg r col = VStr s.
Proof.
  unfold group_data_with_wildcard. intros H.
  destruct (build_all_none _ _ _ _ _ _ H) as [kv [grp [Hin Hg]]].
  unfold build_group in Hg. cbv zeta in Hg.
  destruct (compute_totals cfg t (order_rows srt cfg grp)) eqn:Et; [discriminate|].
  unfold compute_totals in Et. destruct (calculate_totals cfg); [|discriminate].
  split; [reflexivity|].
  destruct (totals_loop_none _ _ _ _ _ Et) as [col [r [s [H1 [H2 [H3 H4]]]]]].
  exists col, r, s. repeat split; auto.
  apply total_source_incl in H3.
  apply (Permutation_in _ (order_rows_perm srt Hsrt cfg grp)) in H3.
  exact (groupby_rows _ _ _ _ _ Hin H3).
Qed.

Lemma grouping_fails_only_on_text_amount_witness :
  In (group_key_col scenario_config)
    (t_columns (mk_table [mkRow 0 [("업체", VStr "Acme"); ("금액", VStr "n/a");
                                   ("이메일", VStr "a@x.com")]])) /\
  group_data_with_wildcard stable_sort01 scenario_config
    (mk_table [mkRow 0 [("업체", VStr "Acme"); ("금액", VStr "n/a");
                        ("이메일", VStr "a@x.com")]]) = None /\
  calculate_totals scenario_config = true /\
  exists col r s, In col (amount_cols scenario_config) /\
    frame_has_col scenario_config
      (mk_table [mkRow 0 [("업체", VStr "Acme"); ("금액", VStr "n/a");
                          ("이메일", VStr "a@x.com")]]) col = true /\
    In r (t_rows (mk_table [mkRow 0 [("업체", VStr "Acme"); ("금액", VStr "n/a");
                                     ("이메일", VStr "a@x.com")]])) /\
    frame_value scenario_config r col = VStr s.
Proof.
  assert (E : group_data_with_wildcard stable_sort01 scenario_config
    (mk_table [mkRow 0 [("업체", VStr "Acme"); ("금액", VStr "n/a");
                        ("이메일", VStr "a@x.com")]]) = None) by (vm_compute; reflexivity).
  assert (Hk : In (group_key_col scenario_config)
    (t_columns (mk_table [mkRow 0 [("업체", VStr "Acme"); ("금액", VStr "n/a");
                                   ("이메일", VStr "a@x.com")]]))) by (simpl; auto).
  split; [exact Hk|]. split; [exact E|].
  exact (grouping_fails_only_on_text_amount stable_sort01 stable_sort01_perm _ _ Hk E).
Defined.

(** ** validate_email *)

Lemma re_match_end (s : list ascii) :
  re_match_atoms [] s = true <-> s = [] \/ s = ["010"%char].
Proof.
  destruct s as [|c [|c' s]]; simpl.
  - tauto.
  - rewrite Ascii.eqb_eq. split; [intros ->; now right | intros [H|H]; congruence].
  - split; [discriminate | intros [H|H]; discriminate].
Qed.

Lemma re_match_lit (c : ascii) (rest : list re_atom) (s : list ascii) :
  re_match_atoms (RLit c :: rest) s = true <->
  exists q, s = c :: q /\ re_match_atoms rest q = true.
Proof.
  destruct s as [|c' q]; simpl.
  - split; [discriminate | intros [q [H _]]; discriminate].
  - rewrite andb_true_iff, Ascii.eqb_eq. split.
    + intros [-> H]. now exists q.
    + intros [q' [H1 H2]]. inversion H1. now subst.
Qed.

Lemma re_match_rep (cls : ascii -> bool) (n : nat) (rest : list re_atom) (s : list ascii) :
  re_match_atoms (RClassRep cls n :: rest) s = true <->
  exists p q, s = p ++ q /\ n <= length p /\ forallb cls p = true /\
              re_match_atoms rest q = true.
Proof.
  change (re_match_atoms (RClassRep cls n :: rest) s) with
    (existsb (fun k => Nat.leb n k && forallb cls (firstn k s) &&
                       re_match_atoms rest (skipn k s)) (seq 0 (S (length s)))).
  rewrite existsb_exists. split.
  - intros [k [Hk H]]. apply in_seq in Hk. rewrite !andb_true_iff in H.
    destruct H as [[H1 H2] H3]. apply Nat.leb_le in H1.
    exists (firstn k s), (skipn k s). split; [symmetry; apply firstn_skipn|].
    rewrite length_firstn. repeat split; auto. lia.
  - intros [p [q [-> [H1 [H2 H3]]]]]. exists (length p). split.
    + apply in_seq. rewrite length_app. lia.
    + rewrite firstn_app, skipn_app, Nat.sub_diag, firstn_all, skipn_all.
      simpl. rewrite app_nil_r, H2, H3. apply Nat.leb_le in H1. now rewrite H1.
Qed.

Lemma drop_space_head (m : list ascii) (c : ascii) (r : list ascii) :
  drop_space m = c :: r -> is_py_space c = false.
Proof.
  induction m as [|c0 m IH]; simpl; [discriminate|].
  destruct (is_py_space c0) eqn:E; [exact IH|]. intros H. inversion H. now subst.
Qed.

Lemma strip_list_last (l x : list ascii) (c : ascii) :
  strip_list l = x ++ [c] -> is_py_space c = false.
Proof.
  unfold strip_list. intros H. apply (f_equal (@rev ascii)) in H.
  rewrite rev_involutive, rev_app_distr in H. simpl in H.
  exact (drop_space_head _ _ _ H).
Qed.

Lemma strip_list_ascii (s : string) :
  list_ascii_of_string (strip s) = strip_list (list_ascii_of_string s).
Proof. unfold strip. apply list_ascii_of_string_of_list_ascii. Qed.

Lemma newline_is_space : is_py_space "010"%char = true.
Proof. reflexivity. Qed.

Lemma validate_email_split (e : string) :
  validate_email e = true <->
  exists local domain tld,
    list_ascii_of_string (strip e) = local ++ ["@"%char] ++ domain ++ ["."%char] ++ tld /\
    local <> [] /\ forallb local_class local = true /\
    domain <> [] /\ forallb domain_class domain = true /\
    2 <= length tld /\ forallb is_alpha tld = true.
Proof.
  unfold validate_email. destruct (String.eqb e "") eqn:Ee.
  - apply String.eqb_eq in Ee. subst e. split; [discriminate|].
    intros [l [d [tl [H [Hl _]]]]]. vm_compute in H.
    destruct l; [contradiction | discriminate].
  - unfold email_pattern. rewrite re_match_rep. split.
    + intros [p1 [q1 [Hs [H1 [H2 H3]]]]].
      apply re_match_lit in H3 as [q2 [-> H3]].
      apply re_match_rep in H3 as [p3 [q3 [-> [H4 [H5 H6]]]]].
      apply re_match_lit in H6 as [q4 [-> H6]].
      apply re_match_rep in H6 as [p5 [q5 [-> [H7 [H8 H9]]]]].
      apply re_match_end in H9 as [-> | ->].
      * exists p1, p3, p5. rewrite app_nil_r in Hs. repeat split; auto.
        -- destruct p1; simpl in H1; [lia | discriminate].
        -- destruct p3; simpl in H4; [lia | discriminate].
      * exfalso. rewrite strip_list_ascii in Hs.
        assert (Hl : strip_list (list_ascii_of_string e) =
                     (p1 ++ "@"%char :: p3 ++ "."%char :: p5) ++ ["010"%char])
          by (rewrite Hs, <- !app_assoc; simpl; now rewrite <- !app_assoc).
        apply strip_list_last in Hl. rewrite newline_is_space in Hl. discriminate.
    + intros [l [d [tl [Hs [Hl [Hlc [Hd [Hdc [Htl Htc]]]]]]]]].
      exists l, ("@"%char :: d ++ ["."%char] ++ tl). split; [exact Hs|].
      split; [destruct l; [contradiction | simpl; lia]|]. split; [exact Hlc|].
      apply re_match_lit. eexists. split; [reflexivity|].
      apply re_match_rep. exists d, ("."%char :: tl). split; [reflexivity|].
      split; [destruct d; [contradiction | simpl; lia]|]. split; [exact Hdc|].
      apply re_match_lit. eexists. split; [reflexivity|].
      apply re_match_rep. exists tl, []. rewrite app_nil_r.
      repeat split; auto.
Qed.

(** X9: [validate_email] accepts an address exactly when its stripped form
    splits as local part, [@], domain, [.], top-level domain, with a non-empty
    local part over [a-zA-Z0-9._%+-], a non-empty domain over [a-zA-Z0-9.-],
    and a top-level domain of at least two ASCII letters. *)
Theorem validate_email_iff (e : string) :
  validate_email e = true <->
  exists local domain tld,
    list_ascii_of_string (strip e) = local ++ ["@"%char] ++ domain ++ ["."%char] ++ tld /\
    local <> [] /\ forallb local_class local = true /\
    domain <> [] /\ forallb domain_class domain = true /\
    2 <= length tld /\ forallb is_alpha tld = true.
Proof. exact (validate_email_split e). Qed.

Lemma class_char_facts (c : ascii) :
  (local_class c || domain_class c || is_alpha c) = true ->
  Ascii.eqb "@" c = false /\
  ((local_class c || Ascii.eqb c "@") && Nat.ltb (nat_of_ascii c) 128
   && negb (is_py_space c)) = true.
Proof.
  destruct c as [[] [] [] [] [] [] [] []]; vm_compute; intros H;
    (discriminate H || (split; reflexivity)).
Qed.

Lemma class_list_facts (cls : ascii -> bool) (l : list ascii) :
  (forall c, cls c = true -> (local_class c || domain_class c || is_alpha c) = true) ->
  forallb cls l = true ->
  filter (Ascii.eqb "@") l = [] /\
  forallb (fun c => (local_class c || Ascii.eqb c "@") && Nat.ltb (nat_of_ascii c) 128
                    && negb (is_py_space c)) l = true.
Proof.
  intros Hc. induction l as [|c l IH]; cbn [filter forallb]; [auto|].
  rewrite andb_true_iff. intros [H1 H2].
  destruct (class_char_facts c (Hc c H1)) as [E1 E2]. rewrite E1, E2.
  destruct (IH H2) as [F1 F2]. now rewrite F1, F2.
Qed.

(** X10: an address [validate_email] accepts contains, once stripped,
    exactly one [@]; every other character is an ASCII letter, digit or
    one of [. _ % + -].  So every byte is below 128, which rules out the
    UTF-8 encoding of any non-ASCII (Unicode) whitespace, and none is an
    ASCII whitespace character. *)
Theorem validate_email_one_at (e : string) :
  validate_email e = true ->
  length (filter (Ascii.eqb "@") (list_ascii_of_string (strip e))) = 1 /\
  forallb (fun c => (local_class c || Ascii.eqb c "@") && Nat.ltb (nat_of_ascii c) 128
                    && negb (is_py_space c))
          (list_ascii_of_string (strip e)) = true.
Proof.
  intros H. apply validate_email_split in H.
  destruct H as [l [d [tl [Hs [_ [Hl [_ [Hd [_ Ht]]]]]]]]]. rewrite Hs.
  destruct (class_list_facts local_class l
              (fun c h => ltac:(rewrite h; reflexivity)) Hl) as [L1 L2].
  destruct (class_list_facts domain_class d
              (fun c h => ltac:(rewrite h, orb_true_r; reflexivity)) Hd) as [D1 D2].
  destruct (class_list_facts is_alpha tl
              (fun c h => ltac:(rewrite h, orb_true_r; reflexivity)) Ht) as [T1 T2].
  rewrite !filter_app, !forallb_app, L1, D1, T1, L2, D2, T2. split; reflexivity.
Qed.

Lemma validate_email_one_at_witness :
  validate_email " kim.lee@acme.co.kr " = true /\
  length (filter (Ascii.eqb "@") (list_ascii_of_string (strip " kim.lee@acme.co.kr "))) = 1 /\
  forallb (fun c => (local_class c || Ascii.eqb c "@") && Nat.ltb (nat_of_ascii c) 128
                    && negb (is_py_space c))
          (list_ascii_of_string (strip " kim.lee@acme.co.kr ")) = true.
Proof.
  assert (H : validate_email " kim.lee@acme.co.kr " = true) by (vm_compute; reflexivity).
  split; [exact H|]. exact (validate_email_one_at _ H).
Defined.

(** ** encode_credential / decode_credential *)

Lemma ascii_in_all (a : ascii) : In a (map ascii_of_nat (seq 0 256)).
Proof.
  rewrite <- (ascii_nat_embedding a). apply in_map, in_seq.
  pose proof (nat_ascii_bounded a). lia.
Qed.

Lemma ascii_cases (P : ascii -> bool) :
  forallb P (map ascii_of_nat (seq 0 256)) = true -> forall a, P a = true.
Proof. intros H a. rewrite forallb_forall in H. apply H, ascii_in_all. Qed.

Lemma ascii_cases2 (P : ascii -> ascii -> bool) :
  forallb (fun a => forallb (P a) (map ascii_of_nat (seq 0 256)))
          (map ascii_of_nat (seq 0 256)) = true ->
  forall a b, P a b = true.
Proof.
  intros H a. apply ascii_cases. revert a. apply ascii_cases. exact H.
Qed.

(** The encoding table and the decoding table are inverse on sextets. *)
Lemma b64_sextet (v : Z) :
  (0 <= v < 64)%Z ->
  Ascii.eqb (b64_char v) "=" = false /\ b64_value (b64_char v) = Some v.
Proof.
  intros Hv.
  assert (H : forallb (fun n => negb (Ascii.eqb (b64_char (Z.of_nat n)) "=") &&
                                match b64_value (b64_char (Z.of_nat n)) with
                                | Some w => Z.eqb w (Z.of_nat n) | None => false end)
                      (seq 0 64) = true) by (vm_compute; reflexivity).
  rewrite forallb_forall in H. specialize (H (Z.to_nat v)).
  rewrite Z2Nat.id in H by lia. rewrite in_seq in H.
  assert (Hb := H ltac:(lia)). apply andb_true_iff in Hb as [H1 H2].
  apply negb_true_iff in H1. split; [exact H1|].
  destruct (b64_value (b64_char v)); [|discriminate]. apply Z.eqb_eq in H2. now subst.
Qed.

Ltac ascii_brute2 :=
  match goal with
  | |- forall x y : ascii, @eq ascii (@?f x y) (@?g x y) =>
      let H := fresh in
      assert (H : forall x y, Ascii.eqb (f x y) (g x y) = true)
        by (refine (ascii_cases2 (fun x y => Ascii.eqb (f x y) (g x y)) _);
            vm_compute; reflexivity);
      let x := fresh in let y := fresh in
      intros x y; apply Ascii.eqb_eq, (H x y)
  | |- forall x y : ascii, @eq Z (@?f x y) (@?g x y) =>
      let H := fresh in
      assert (H : forall x y, Z.eqb (f x y) (g x y) = true)
        by (refine (ascii_cases2 (fun x y => Z.eqb (f x y) (g x y)) _);
            vm_compute; reflexivity);
      let x := fresh in let y := fresh in
      intros x y; apply Z.eqb_eq, (H x y)
  | |- forall x y : ascii, (0 <= @?f x y < @?m x y)%Z =>
      let H := fresh in
      assert (H : forall x y, (Z.leb 0 (f x y) && Z.ltb (f x y) (m x y)) = true)
        by (refine (ascii_cases2 (fun x y => Z.leb 0 (f x y) && Z.ltb (f x y) (m x y)) _);
            vm_compute; reflexivity);
      let x := fresh in let y := fresh in
      intros x y; specialize (H x y); apply andb_true_iff in H;
      split; [apply Z.leb_le, (proj1 H) | apply Z.ltb_lt, (proj2 H)]
  end.

Lemma b64_range0 : forall a b : ascii, (0 <= Z.shiftr (byte_val a) 2 < 64)%Z.
Proof. ascii_brute2. Qed.

Lemma b64_range1 : forall a b : ascii,
  (0 <= Z.lor (Z.shiftl (Z.land (byte_val a) 3) 4) (Z.shiftr (byte_val b) 4) < 64)%Z.
Proof. ascii_brute2. Qed.

Lemma b64_range1' : forall a b : ascii, (0 <= Z.shiftl (Z.land (byte_val a) 3) 4 < 64)%Z.
Proof. ascii_brute2. Qed.

Lemma b64_range2 : forall a b : ascii,
  (0 <= Z.lor (Z.shiftl (Z.land (byte_val a) 15) 2) (Z.shiftr (byte_val b) 6) < 64)%Z.
Proof. ascii_brute2. Qed.

Lemma b64_range2' : forall a b : ascii, (0 <= Z.shiftl (Z.land (byte_val a) 15) 2 < 64)%Z.
Proof. ascii_brute2. Qed.

Lemma b64_range3 : forall a b : ascii, (0 <= Z.land (byte_val a) 63 < 64)%Z.
Proof. ascii_brute2. Qed.

Lemma b64_byte1 : forall a b : ascii,
  byte_of (Z.lor (Z.shiftl (Z.shiftr (byte_val a) 2) 2)
                 (Z.shiftr (Z.lor (Z.shiftl (Z.land (byte_val a) 3) 4)
                                  (Z.shiftr (byte_val b) 4)) 4)) = a.
Proof. ascii_brute2. Qed.

Lemma b64_byte1' : forall a b : ascii,
  byte_of (Z.lor (Z.shiftl (Z.shiftr (byte_val a) 2) 2)
                 (Z.shiftr (Z.shiftl (Z.land (byte_val a) 3) 4) 4)) = a.
Proof. ascii_brute2. Qed.

Lemma b64_left1 : forall a b : ascii,
  Z.land (Z.lor (Z.shiftl (Z.land (byte_val a) 3) 4) (Z.shiftr (byte_val b) 4)) 15 =
  Z.shiftr (byte_val b) 4.
Proof. ascii_brute2. Qed.

Lemma b64_byte2 : forall b c : ascii,
  byte_of (Z.lor (Z.shiftl (Z.shiftr (byte_val b) 4) 4)
                 (Z.shiftr (Z.lor (Z.shiftl (Z.land (byte_val b) 15) 2)
                                  (Z.shiftr (byte_val c) 6)) 2)) = b.
Proof. ascii_brute2. Qed.

Lemma b64_byte2' : forall b c : ascii,
  byte_of (Z.lor (Z.shiftl (Z.shiftr (byte_val b) 4) 4)
                 (Z.shiftr (Z.shiftl (Z.land (byte_val b) 15) 2) 2)) = b.
Proof. ascii_brute2. Qed.

Lemma b64_left2 : forall b c : ascii,
  Z.land (Z.lor (Z.shiftl (Z.land (byte_val b) 15) 2) (Z.shiftr (byte_val c) 6)) 3 =
  Z.shiftr (byte_val c) 6.
Proof. ascii_brute2. Qed.

Lemma b64_byte3 : forall c d : ascii,
  byte_of (Z.lor (Z.shiftl (Z.shiftr (byte_val c) 6) 6) (Z.land (byte_val c) 63)) = c.
Proof. ascii_brute2. Qed.

Section A2bSteps.

Variables (ch : ascii) (v leftchar : Z) (r acc : list ascii) (pads : nat).
Hypothesis ch_not_pad : Ascii.eqb ch "=" = false.
Hypothesis ch_value : b64_value ch = Some v.

Lemma a2b_step0 : a2b_loop (ch :: r) 0 leftchar pads acc = a2b_loop r 1 v 0 acc.
Proof. simpl. now rewrite ch_not_pad, ch_value. Qed.

Lemma a2b_step1 :
  a2b_loop (ch :: r) 1 leftchar pads acc =
  a2b_loop r 2 (Z.land v 15) 0
    (byte_of (Z.lor (Z.shiftl leftchar 2) (Z.shiftr v 4)) :: acc).
Proof. simpl. now rewrite ch_not_pad, ch_value. Qed.

Lemma a2b_step2 :
  a2b_loop (ch :: r) 2 leftchar pads acc =
  a2b_loop r 3 (Z.land v 3) 0
    (byte_of (Z.lor (Z.shiftl leftchar 4) (Z.shiftr v 2)) :: acc).
Proof. simpl. now rewrite ch_not_pad, ch_value. Qed.

Lemma a2b_step3 :
  a2b_loop (ch :: r) 3 leftchar pads acc =
  a2b_loop r 0 0 0 (byte_of (Z.lor (Z.shiftl leftchar 6) v) :: acc).
Proof. simpl. now rewrite ch_not_pad, ch_value. Qed.

End A2bSteps.

Ltac b64_step lem H :=
  let Hs := fresh in
  pose proof H as Hs; apply b64_sextet in Hs;
  rewrite (lem _ _ _ _ _ _ (proj1 Hs) (proj2 Hs)); clear Hs.

(** [b64decode] inverts [b64encode]. *)
Lemma a2b_b64encode (l acc : list ascii) :
  a2b_loop (b64encode l) 0 0 0 acc = Some (rev acc ++ l).
Proof.
  remember (length l) as n eqn:Hn. revert l acc Hn.
  induction n as [n IH] using lt_wf_ind. intros l acc Hn.
  destruct l as [|a [|b [|c r]]].
  - simpl. now rewrite app_nil_r.
  - cbn [b64encode].
    b64_step a2b_step0 (b64_range0 a a).
    b64_step a2b_step1 (b64_range1' a a).
    rewrite (b64_byte1' a a). simpl. rewrite <- ?app_assoc. reflexivity.
  - cbn [b64encode].
    b64_step a2b_step0 (b64_range0 a a).
    b64_step a2b_step1 (b64_range1 a b).
    rewrite b64_byte1, b64_left1.
    b64_step a2b_step2 (b64_range2' b b).
    rewrite (b64_byte2' b b). simpl. rewrite <- ?app_assoc. reflexivity.
  - cbn [b64encode].
    b64_step a2b_step0 (b64_range0 a a).
    b64_step a2b_step1 (b64_range1 a b).
    rewrite b64_byte1, b64_left1.
    b64_step a2b_step2 (b64_range2 b c).
    rewrite b64_byte2, b64_left2.
    b64_step a2b_step3 (b64_range3 c c).
    rewrite (b64_byte3 c c), (IH (length r)) by (simpl in Hn; lia || reflexivity).
    simpl. rewrite <- ?app_assoc. reflexivity.
Qed.

Lemma b64encode_nil (l : list ascii) : b64encode l = [] -> l = [].
Proof. destruct l as [|a [|b [|c r]]]; simpl; congruence. Qed.

Lemma string_of_list_ascii_nil (l : list ascii) :
  string_of_list_ascii l = "" -> l = [].
Proof. destruct l; simpl; congruence. Qed.

(** X11: [decode_credential] recovers every string [encode_credential]
    stored in the cookie (any text whose bytes are well-formed UTF-8, which
    every Python [str] without lone surrogates is). *)
Theorem credential_round_trip (s : string) :
  utf8_valid (list_ascii_of_string s) = true ->
  decode_credential (encode_credential s) = s.
Proof.
  intros Hu. unfold encode_credential.
  destruct (String.eqb s "") eqn:Es; [apply String.eqb_eq in Es; now subst|].
  unfold decode_credential.
  destruct (String.eqb (string_of_list_ascii (b64encode (list_ascii_of_string s))) "")
    eqn:Ee.
  - apply String.eqb_eq, string_of_list_ascii_nil, b64encode_nil in Ee.
    apply (f_equal string_of_list_ascii) in Ee.
    rewrite string_of_list_ascii_of_string in Ee. subst s. discriminate Es.
  - unfold b64decode. rewrite list_ascii_of_string_of_list_ascii, a2b_b64encode.
    simpl. rewrite Hu. apply string_of_list_ascii_of_string.
Qed.

Lemma credential_round_trip_witness :
  utf8_valid (list_ascii_of_string "비밀번호123") = true /\
  decode_credential (encode_credential "비밀번호123") = "비밀번호123".
Proof.
  assert (H : utf8_valid (list_ascii_of_string "비밀번호123") = true)
    by (vm_compute; reflexivity).
  split; [exact H | exact (credential_round_trip _ H)].
Defined.

(** A byte the decoder looks at: the pad [=] or a character of the alphabet. *)
Lemma a2b_loop_filter (l : list ascii) : forall q lc p acc,
  a2b_loop l q lc p acc =
  a2b_loop (filter (fun c => Ascii.eqb c "=" || b64_in_table c) l) q lc p acc.
Proof.
  induction l as [|c r IH]; intros q lc p acc; [reflexivity|].
  cbn [filter]. destruct (Ascii.eqb c "=") eqn:Ep.
  - cbn [orb]. simpl. rewrite Ep.
    rewrite <- !IH. reflexivity.
  - cbn [orb]. destruct (b64_value c) as [v|] eqn:Ev.
    + assert (Ht : b64_in_table c = true) by (unfold b64_in_table; now rewrite Ev).
      rewrite Ht. simpl. rewrite Ep, Ev. destruct q as [|[|[|q]]]; apply IH.
    + assert (Ht : b64_in_table c = false) by (unfold b64_in_table; now rewrite Ev).
      rewrite Ht. simpl. rewrite Ep, Ev. apply IH.
Qed.

(** X12: [decode_credential] ignores every byte of the cookie value that is
    neither [=] nor a base64 alphabet character (spaces, line breaks, ...). *)
Theorem decode_credential_skips_junk (v : string) :
  decode_credential v =
  decode_credential
    (string_of_list_ascii
       (filter (fun c => Ascii.eqb c "=" || b64_in_table c)
          (list_ascii_of_string v))).
Proof.
  set (keep := fun c => Ascii.eqb c "=" || b64_in_table c).
  unfold decode_credential, b64decode.
  destruct (String.eqb v "") eqn:Ev.
  - apply String.eqb_eq in Ev. now subst v.
  - rewrite list_ascii_of_string_of_list_ascii, a2b_loop_filter.
    fold keep.
    destruct (String.eqb (string_of_list_ascii (filter keep (list_ascii_of_string v))) "")
      eqn:Ef; [|reflexivity].
    apply String.eqb_eq, string_of_list_ascii_nil in Ef. rewrite Ef. reflexivity.
Qed.

(** Without any [=], the decoder ends in the quad position given by the
    number of alphabet characters. *)
Lemma a2b_loop_no_pad (l : list ascii) : forall q lc p acc,
  (forall c, In c l -> c <> "="%char) ->
  q < 4 ->
  (q + length (filter (fun c => b64_in_table c) l)) mod 4 <> 0 ->
  a2b_loop l q lc p acc = None.
Proof.
  induction l as [|c r IH]; intros q lc p acc Hnp Hq Hm.
  - destruct q; [exfalso; apply Hm; reflexivity | reflexivity].
  - assert (Ep : Ascii.eqb c "=" = false)
      by (apply Ascii.eqb_neq, Hnp; now left).
    assert (Hr : forall c', In c' r -> c' <> "="%char) by (intros; apply Hnp; now right).
    cbn [filter] in Hm. unfold b64_in_table at 1 in Hm. simpl. rewrite Ep.
    destruct (b64_value c) as [v|] eqn:Evc; cbn [length] in Hm.
    + set (n := Datatypes.length (filter (fun c => b64_in_table c) r)) in *.
      destruct q as [|[|[|[|q]]]]; try lia; apply IH; auto; try lia;
        try (rewrite <- plus_n_Sm in Hm; exact Hm).
      intros Hc; apply Hm. replace (3 + S n) with (n + 1 * 4) by lia.
      rewrite Nat.Div0.mod_add. exact Hc.
    + apply IH; auto.
Qed.

(** X13: a cookie value with no [=] whose number of base64 alphabet
    characters is not a multiple of 4 (a truncated value) decodes to the
    empty string. *)
Theorem decode_credential_truncated (v : string) :
  (forall c, In c (list_ascii_of_string v) -> c <> "="%char) ->
  length (filter (fun c => b64_in_table c) (list_ascii_of_string v)) mod 4 <> 0 ->
  decode_credential v = "".
Proof.
  intros Hnp Hm. unfold decode_credential, b64decode.
  destruct (String.eqb v "") eqn:Ev; [reflexivity|].
  rewrite (a2b_loop_no_pad _ 0 0 0 [] Hnp); [reflexivity | lia | exact Hm].
Qed.

Lemma decode_credential_truncated_witness :
  (forall c, In c (list_ascii_of_string "7Jew7ZW") -> c <> "="%char) /\
  length (filter (fun c => b64_in_table c) (list_ascii_of_string "7Jew7ZW")) mod 4 <> 0 /\
  decode_credential "7Jew7ZW" = "".
Proof.
  assert (H1 : forall c, In c (list_ascii_of_string "7Jew7ZW") -> c <> "="%char).
  { intros c Hc. simpl in Hc.
    repeat (destruct Hc as [<- | Hc]; [discriminate|]). destruct Hc. }
  assert (H2 : length (filter (fun c => b64_in_table c)
                 (list_ascii_of_string "7Jew7ZW")) mod 4 <> 0)
    by (vm_compute; intro Hc; discriminate Hc).
  split; [exact H1 | split; [exact H2 | exact (decode_credential_truncated _ H1 H2)]].
Defined.

Ltac b64_range_solve :=
  match goal with
  | x : ascii, y : ascii |- _ =>
      first [ exact (b64_range1 x y) | exact (b64_range2 x y) ]
  | x : ascii |- _ =>
      first [ exact (b64_range0 x x) | exact (b64_range1' x x)
            | exact (b64_range2' x x) | exact (b64_range3 x x) ]
  end.

(** X14: [encode_credential] writes only base64 alphabet characters and [=],
    four characters for every started group of three UTF-8 bytes. *)
Lemma b64encode_shape (l : list ascii) :
  length (b64encode l) = 4 * ((length l + 2) / 3) /\
  (forall c, In c (b64encode l) -> c = "="%char \/ b64_in_table c = true).
Proof.
  remember (length l) as n eqn:Hn. revert l Hn.
  induction n as [n IH] using lt_wf_ind. intros l Hn.
  assert (Hch : forall v, (0 <= v < 64)%Z -> b64_in_table (b64_char v) = true)
    by (intros v Hv; unfold b64_in_table; now rewrite (proj2 (b64_sextet v Hv))).
  destruct l as [|a [|b [|c r]]]; subst n.
  - split; [reflexivity | intros c []].
  - split; [reflexivity|]. cbn [b64encode In].
    intros x Hx.
    repeat (destruct Hx as [<- | Hx];
      [first [now left | right; apply Hch; b64_range_solve]|]).
    destruct Hx.
  - split; [reflexivity|]. cbn [b64encode In].
    intros x Hx.
    repeat (destruct Hx as [<- | Hx];
      [first [now left | right; apply Hch; b64_range_solve]|]).
    destruct Hx.
  - destruct (IH (length r) ltac:(simpl; lia) r eq_refl) as [Hlen Hin].
    split.
    + cbn [b64encode length]. rewrite Hlen.
      replace (S (S (S (length r))) + 2) with (length r + 2 + 1 * 3) by lia.
      rewrite Nat.div_add by lia. lia.
    + cbn [b64encode In]. intros x Hx.
      repeat (destruct Hx as [<- | Hx];
        [right; apply Hch; b64_range_solve|]).
      now apply Hin.
Qed.

Theorem encode_credential_shape (s : string) :
  String.length (encode_credential s) = 4 * ((length (list_ascii_of_string s) + 2) / 3) /\
  (forall c, In c (list_ascii_of_string (encode_credential s)) ->
     c = "="%char \/ b64_in_table c = true).
Proof.
  unfold encode_credential. destruct (String.eqb s "") eqn:Es.
  - apply String.eqb_eq in Es. subst s. split; [reflexivity | intros c []].
  - rewrite list_ascii_of_string_of_list_ascii.
    destruct (b64encode_shape (list_ascii_of_string s)) as [Hl Hi].
    split; [|exact Hi].
    rewrite <- Hl. clear. induction (b64encode _); simpl; congruence.
Qed.

(* ------------------------------------------------------------------ *)
(** ** clean_dataframe *)

Lemma Forall2_refl_in {A} (R : A -> A -> Prop) (l : list A) :
  (forall x, In x l -> R x x) -> Forall2 R l l.
Proof.
  induction l as [|x l IH]; intros H; constructor; [apply H; now left|].
  apply IH. intros; apply H; now right.
Qed.

Lemma Forall2_chain {A} (R S T : A -> A -> Prop) (l1 l2 l3 : list A) :
  (forall a b c, R a b -> S b c -> T a c) ->
  Forall2 R l1 l2 -> Forall2 S l2 l3 -> Forall2 T l1 l3.
Proof.
  intros HT H12. revert l3. induction H12 as [|a b l1 l2 Hab H12 IH]; intros l3 H23;
    inversion H23; subst; constructor; eauto.
Qed.

Lemma Forall2_in_r {A} (R : A -> A -> Prop) (l1 l2 : list A) y :
  Forall2 R l1 l2 -> In y l2 -> exists x, In x l1 /\ R x y.
Proof.
  induction 1 as [|a b l1 l2 Hab H12 IH]; intros Hy; [destruct Hy|].
  destruct Hy as [<-|Hy]; [exists a; now split; [left|]|].
  destruct (IH Hy) as [x [Hx HR]]. exists x. now split; [right|].
Qed.

Lemma cell_dict_set (r : row) (i : nat) (col c : string) (v : value) :
  cell (mkRow i (dict_set col v (r_cells r))) c =
  if String.eqb c col then v else cell r c.
Proof.
  unfold cell. cbn [r_cells]. rewrite assoc_dict_set.
  now destruct (String.eqb c col).
Qed.

(** One column conversion. *)
Lemma convert_col_spec (to_numeric : string -> value) (cleaner : string -> string)
  (t : table) (col : string) :
  t_columns (convert_col to_numeric cleaner t col) = t_columns t /\
  t_original_str (convert_col to_numeric cleaner t col) = t_original_str t /\
  Forall2 (fun r r' => r_idx r' = r_idx r /\
                       (forall c, c <> col -> cell r' c = cell r c) /\
                       (in_strs col (t_columns t) = true ->
                        cell r' col = to_numeric (cleaner (py_str (cell r col)))))
          (t_rows t) (t_rows (convert_col to_numeric cleaner t col)).
Proof.
  unfold convert_col. destruct (in_strs col (t_columns t)) eqn:Ein; cbn [t_columns t_rows t_original_str].
  - split; [reflexivity | split; [reflexivity|]].
    induction (t_rows t) as [|r rs IH]; cbn [map]; constructor; [|exact IH].
    cbn [r_idx]. split; [reflexivity|]. split.
    + intros c Hc. rewrite cell_dict_set. apply String.eqb_neq in Hc. now rewrite Hc.
    + intros _. rewrite cell_dict_set, String.eqb_refl. reflexivity.
  - split; [reflexivity | split; [reflexivity|]].
    apply Forall2_refl_in. intros r _. split; [reflexivity|]. split; [reflexivity|].
    discriminate.
Qed.

Lemma fold_convert_keep (to_numeric : string -> value) (cleaner : string -> string)
  (cols : list string) : forall t,
  t_columns (fold_left (convert_col to_numeric cleaner) cols t) = t_columns t /\
  t_original_str (fold_left (convert_col to_numeric cleaner) cols t) = t_original_str t /\
  Forall2 (fun r r' => r_idx r' = r_idx r /\ forall c, ~ In c cols -> cell r' c = cell r c)
          (t_rows t) (t_rows (fold_left (convert_col to_numeric cleaner) cols t)).
Proof.
  induction cols as [|col cols IH]; intros t; cbn [fold_left].
  - split; [reflexivity | split; [reflexivity|]].
    apply Forall2_refl_in. intros r _. split; reflexivity.
  - destruct (convert_col_spec to_numeric cleaner t col) as [Hc [Ho Hr]].
    destruct (IH (convert_col to_numeric cleaner t col)) as [Hc' [Ho' Hr']].
    rewrite Hc', Hc, Ho', Ho. split; [reflexivity | split; [reflexivity|]].
    refine (Forall2_chain _ _ _ _ _ _ _ Hr Hr').
    intros a b c [Hab [Hab' _]] [Hbc Hbc']. split; [congruence|].
    intros x Hx. rewrite Hbc' by (intros H; apply Hx; now right).
    apply Hab'. intros ->. apply Hx. now left.
Qed.

(** X18: [clean_dataframe] keeps the column list, [attrs], the rows with
    their index labels, and every cell of a column listed neither as an
    amount nor as a percent column: date and id columns are never
    converted. *)
Theorem clean_dataframe_keeps_other_columns (to_numeric : string -> value)
  (df : table) (amount_cols percent_cols date_cols id_cols : list string) :
  let df' := clean_dataframe to_numeric df amount_cols percent_cols date_cols id_cols in
  t_columns df' = t_columns df /\ t_original_str df' = t_original_str df /\
  Forall2 (fun r r' => r_idx r' = r_idx r /\
                       forall c, ~ In c amount_cols -> ~ In c percent_cols ->
                                 cell r' c = cell r c)
          (t_rows df) (t_rows df').
Proof.
  unfold clean_dataframe. cbv zeta.
  destruct (fold_convert_keep to_numeric amount_cleaner amount_cols df) as [Hc [Ho Hr]].
  destruct (fold_convert_keep to_numeric percent_cleaner percent_cols
              (fold_left (convert_col to_numeric amount_cleaner) amount_cols df))
    as [Hc' [Ho' Hr']].
  rewrite Hc', Hc, Ho', Ho. split; [reflexivity | split; [reflexivity|]].
  refine (Forall2_chain _ _ _ _ _ _ _ Hr Hr').
  intros a b c [Hab Hab'] [Hbc Hbc']. split; [congruence|].
  intros x Ha Hp. rewrite (Hbc' x Hp). exact (Hab' x Ha).
Qed.

Section CleanNumeric.

Variable to_numeric : string -> value.
Hypothesis to_numeric_no_text : forall s s', to_numeric s <> VStr s'.

Definition no_text_in (cols : list string) (t : table) : Prop :=
  forall col r s, In col cols -> in_strs col (t_columns t) = true ->
                  In r (t_rows t) -> cell r col <> VStr s.

Lemma convert_col_no_text (cleaner : string -> string) (cols : list string) (t : table)
  (col0 : string) :
  no_text_in cols t -> no_text_in (col0 :: cols) (convert_col to_numeric cleaner t col0).
Proof.
  intros H col r' s Hcol Hin Hr'.
  destruct (convert_col_spec to_numeric cleaner t col0) as [Hc [_ Hr]].
  rewrite Hc in Hin.
  destruct (Forall2_in_r _ _ _ _ Hr Hr') as [r [Hr0 [_ [Hother Hconv]]]].
  destruct (String.eqb col col0) eqn:E.
  - apply String.eqb_eq in E. subst col. rewrite (Hconv Hin). apply to_numeric_no_text.
  - apply String.eqb_neq in E. rewrite (Hother col E).
    destruct Hcol as [->|Hcol]; [contradiction|]. exact (H col r s Hcol Hin Hr0).
Qed.

Lemma fold_convert_no_text (cleaner : string -> string) (cols : list string) :
  forall (done : list string) (t : table), no_text_in done t ->
  no_text_in (cols ++ done) (fold_left (convert_col to_numeric cleaner) cols t).
Proof.
  induction cols as [|col cols IH]; intros done t H; cbn [fold_left app]; [exact H|].
  intros c r s Hc. apply (IH (col :: done)); [apply convert_col_no_text; exact H|].
  apply in_app_iff. destruct Hc as [->|Hc]; [right; now left|].
  apply in_app_iff in Hc as [Hc|Hc]; [now left | right; now right].
Qed.

Lemma clean_dataframe_no_text (df : table) (amount_cols percent_cols date_cols id_cols : list string) :
  no_text_in amount_cols (clean_dataframe to_numeric df amount_cols percent_cols date_cols id_cols).
Proof.
  unfold clean_dataframe.
  assert (H0 : no_text_in [] df) by (intros c r s []).
  pose proof (fold_convert_no_text amount_cleaner amount_cols [] df H0) as H1.
  rewrite app_nil_r in H1.
  pose proof (fold_convert_no_text percent_cleaner percent_cols _ _ H1) as H2.
  intros c r s Hc. apply H2. apply in_app_iff. now right.
Qed.

End CleanNumeric.

(** X19: on a sheet that has the group-key column and whose cells are
    text, whole numbers or NaN, when [pd.to_numeric] turns every cleaned
    amount and percent text into a whole number or NaN (never text, a
    fraction or an infinity), grouping the output of [clean_dataframe] with
    the same amount columns never fails: every amount column present in the
    frame holds only numbers and NaN after the conversion.  The exception
    is an amount column named [_base_group_key] under wildcard grouping,
    which the grouping overwrites with text keys. *)
Theorem clean_then_group_never_fails (srt : list (nat * row) -> list (nat * row))
  (Hsrt : forall l, Permutation (srt l) l)
  (to_numeric : string -> value) (Hnum : forall s s', to_numeric s <> VStr s')
  (cfg : config) (Hbase : use_wildcard cfg = true -> ~ In base_col (amount_cols cfg))
  (df : table) (Hkey : In (group_key_col cfg) (t_columns df))
  (percent_cols date_cols id_cols : list string) :
  group_data_with_wildcard srt cfg
    (clean_dataframe to_numeric df (amount_cols cfg) percent_cols date_cols id_cols) <> None.
Proof.
  set (df' := clean_dataframe to_numeric df (amount_cols cfg) percent_cols date_cols id_cols).
  unfold group_data_with_wildcard. intros H.
  destruct (build_all_none _ _ _ _ _ _ H) as [kv [grp [Hin Hg]]].
  unfold build_group in Hg. cbv zeta in Hg.
  destruct (compute_totals cfg df' (order_rows srt cfg grp)) eqn:Et; [discriminate|].
  unfold compute_totals in Et. destruct (calculate_totals cfg); [|discriminate].
  destruct (totals_loop_none _ _ _ _ _ Et) as [col [r [s [H1 [H2 [H3 H4]]]]]].
  apply total_source_incl in H3.
  apply (Permutation_in _ (order_rows_perm srt Hsrt cfg grp)) in H3.
  apply (groupby_rows _ _ _ _ _ Hin) in H3.
  unfold frame_value in H4. unfold frame_has_col in H2.
  destruct (use_wildcard cfg && String.eqb col base_col) eqn:Eb.
  - apply andb_true_iff in Eb as [Ew Eb]. apply String.eqb_eq in Eb. subst col.
    exact (Hbase Ew H1).
  - cbn [orb] in H2. exact (clean_dataframe_no_text to_numeric Hnum df (amount_cols cfg) percent_cols
                         date_cols id_cols col r s H1 H2 H3 H4).
Qed.

Lemma int_to_numeric_no_text : forall s s', int_to_numeric s <> VStr s'.
Proof.
  intros s s'. unfold int_to_numeric.
  destruct (String.eqb s ""); [discriminate|].
  destruct (NilEmpty.int_of_string s); discriminate.
Qed.

Lemma clean_then_group_never_fails_witness :
  (forall s s', int_to_numeric s <> VStr s') /\
  In (group_key_col (mk_config "first" true true)) (t_columns data_sheet) /\
  (use_wildcard (mk_config "first" true true) = true ->
   ~ In base_col (amount_cols (mk_config "first" true true))) /\
  group_data_with_wildcard stable_sort01 (mk_config "first" true true) data_sheet = None /\
  group_data_with_wildcard stable_sort01 (mk_config "first" true true)
    (clean_dataframe int_to_numeric data_sheet
       (amount_cols (mk_config "first" true true)) [] [] []) <> None.
Proof.
  assert (Hb : use_wildcard (mk_config "first" true true) = true ->
               ~ In base_col (amount_cols (mk_config "first" true true))).
  { intros _ [H|[]]. discriminate H. }
  assert (Hk : In (group_key_col (mk_config "first" true true)) (t_columns data_sheet))
    by (simpl; auto).
  split; [exact int_to_numeric_no_text|]. split; [exact Hk|].
  split; [exact Hb|]. split; [vm_compute; reflexivity|].
  exact (clean_then_group_never_fails stable_sort01 stable_sort01_perm int_to_numeric
           int_to_numeric_no_text (mk_config "first" true true) Hb data_sheet Hk [] [] []).
Defined.

(* ------------------------------------------------------------------ *)
(** ** merge_email_data *)

Lemma nth_error_combine_seq {A} (l : list A) : forall k i x,
  nth_error l i = Some x -> nth_error (combine (seq k (length l)) l) i = Some (k + i, x).
Proof.
  induction l as [|y l IH]; intros k i x H; [destruct i; discriminate|].
  destruct i as [|i]; cbn in H |- *.
  - inversion H. now rewrite Nat.add_0_r.
  - rewrite (IH (S k) i x H). now rewrite Nat.add_succ_r.
Qed.

Lemma assoc_app {A} (k : string) (l1 l2 : list (string * A)) :
  assoc k (l1 ++ l2) = match assoc k l1 with Some v => Some v | None => assoc k l2 end.
Proof.
  induction l1 as [|[k0 v0] l1 IH]; simpl; [reflexivity|].
  destruct (String.eqb k k0); [reflexivity | exact IH].
Qed.

Lemma assoc_drop_key {A} (k j : string) (l : list (string * A)) :
  k <> j -> assoc k (filter (fun kv => negb (String.eqb (fst kv) j)) l) = assoc k l.
Proof.
  intros Hk. induction l as [|[k0 v0] l IH]; simpl; [reflexivity|].
  destruct (String.eqb k0 j) eqn:E; simpl.
  - apply String.eqb_eq in E. subst k0. apply String.eqb_neq in Hk. now rewrite Hk.
  - now rewrite IH.
Qed.

Lemma assoc_rename {A} (k old new : string) (l : list (string * A)) :
  k <> old -> k <> new ->
  assoc k (map (fun kv => (rename_col old new (fst kv), snd kv)) l) = assoc k l.
Proof.
  intros Ho Hn. induction l as [|[k0 v0] l IH]; simpl; [reflexivity|].
  unfold rename_col at 1. cbn [fst].
  destruct (String.eqb k0 old) eqn:E.
  - apply String.eqb_eq in E. subst k0. apply String.eqb_neq in Ho, Hn.
    rewrite Hn, Ho. exact IH.
  - now rewrite IH.
Qed.

Lemma rename_col_same (old k : string) : rename_col old old k = k.
Proof.
  unfold rename_col. destruct (String.eqb k old) eqn:E; [|reflexivity].
  now apply String.eqb_eq in E.
Qed.

Lemma assoc_absent {A} (k : string) (l : list (string * A)) :
  ~ In k (map fst l) -> assoc k l = None.
Proof.
  induction l as [|[k0 v0] l IH]; simpl; intros H; [reflexivity|].
  destruct (String.eqb k k0) eqn:E.
  - apply String.eqb_eq in E. subst. exfalso. apply H. now left.
  - apply IH. intros H'. apply H. now right.
Qed.

(** The merged row at position [i]. *)
Lemma merge_email_data_row (df_data df_email : table)
  (join_col_data join_col_email email_col : string) cols rs i r :
  merge_email_data df_data df_email join_col_data join_col_email email_col = Some (cols, rs) ->
  nth_error (t_rows df_data) i = Some r ->
  let overlap := in_strs email_col
                   (filter (fun c => negb (String.eqb c join_key_col)) (t_columns df_data)) in
  let left_name := if overlap then (email_col ++ "_x")%string else email_col in
  let right_name := if overlap then (email_col ++ "_y")%string else email_col in
  nth_error rs i =
  Some (mkRow i
          (map (fun kv => (rename_col email_col left_name (fst kv), snd kv))
               (filter (fun kv => negb (String.eqb (fst kv) join_key_col)) (r_cells r))
           ++ [(right_name, merged_email df_email join_col_email email_col
                              (join_key join_col_data r))])).
Proof.
  unfold merge_email_data. intros H Hi.
  destruct (_ && _ && _); [|discriminate]. inversion H. subst. clear H.
  rewrite nth_error_map, (nth_error_combine_seq _ 0 i r Hi). reflexivity.
Qed.

Lemma merge_email_data_length (df_data df_email : table)
  (join_col_data join_col_email email_col : string) cols rs :
  merge_email_data df_data df_email join_col_data join_col_email email_col = Some (cols, rs) ->
  length rs = length (t_rows df_data).
Proof.
  unfold merge_email_data. intros H.
  destruct (_ && _ && _); [|discriminate]. inversion H. subst.
  rewrite length_map, length_combine, length_seq. apply Nat.min_id.
Qed.

(** X15: [merge_email_data] keeps every data row, in order, under the new
    index 0, 1, ...: the merged row [i] has the cells of data row [i] in
    every column other than [_join_key], the email column and its [_x]/[_y]
    renamings. *)
Theorem merge_keeps_data_rows (df_data df_email : table)
  (join_col_data join_col_email email_col : string) cols rs :
  merge_email_data df_data df_email join_col_data join_col_email email_col = Some (cols, rs) ->
  length rs = length (t_rows df_data) /\
  forall i r, nth_error (t_rows df_data) i = Some r ->
  exists r', nth_error rs i = Some r' /\ r_idx r' = i /\
    forall c, c <> join_key_col -> c <> email_col -> c <> (email_col ++ "_x")%string ->
              c <> (email_col ++ "_y")%string -> cell r' c = cell r c.
Proof.
  intros H. split; [exact (merge_email_data_length _ _ _ _ _ _ _ H)|].
  intros i r Hi. rewrite (merge_email_data_row _ _ _ _ _ _ _ i r H Hi).
  eexists. split; [reflexivity|]. split; [reflexivity|].
  intros c Hj He Hx Hy. unfold cell. cbn [r_cells]. rewrite assoc_app.
  rewrite assoc_rename, assoc_drop_key by
    (try destruct (in_strs _ _); assumption).
  destruct (assoc c (r_cells r)) eqn:Ec; [reflexivity|].
  cbn [assoc]. destruct (in_strs _ _);
    [apply String.eqb_neq in Hy | apply String.eqb_neq in He]; now rewrite ?Hy, ?He.
Qed.

Lemma merge_keeps_data_rows_witness :
  match merge_email_data data_sheet email_sheet "업체" "업체" "이메일" with
  | Some (cols, rs) =>
      length rs = length (t_rows data_sheet) /\
      exists r', nth_error rs 1 = Some r' /\ r_idx r' = 1 /\
        forall c, c <> join_key_col -> c <> "이메일" -> c <> ("이메일" ++ "_x")%string ->
                  c <> ("이메일" ++ "_y")%string ->
                  cell r' c = cell (mkRow 1 [("업체", VNaN); ("금액", VStr "₩5")]) c
  | None => False
  end.
Proof.
  destruct (merge_email_data data_sheet email_sheet "업체" "업체" "이메일")
    as [[cols rs]|] eqn:E; [|vm_compute in E; discriminate E].
  destruct (merge_keeps_data_rows _ _ _ _ _ _ _ E) as [Hl Hr].
  split; [exact Hl|]. apply Hr. reflexivity.
Defined.

Lemma find_none_all {A} (f : A -> bool) (l : list A) :
  (forall x, In x l -> f x = false) -> find f l = None.
Proof.
  induction l as [|x l IH]; intros H; simpl; [reflexivity|].
  rewrite (H x (or_introl eq_refl)). apply IH. intros; apply H; now right.
Qed.

Lemma find_first {A} (f : A -> bool) (pre post : list A) (x : A) :
  (forall y, In y pre -> f y = false) -> f x = true -> find f (pre ++ x :: post) = Some x.
Proof.
  induction pre as [|y pre IH]; intros H Hx; simpl; [now rewrite Hx|].
  rewrite (H y (or_introl eq_refl)). apply IH; [|exact Hx]. intros; apply H; now right.
Qed.

(** X16: when the data sheet has no column named like the email column,
    the merged frame gains that column at the end; a data row gets the
    email of the first email-sheet row whose key [str(cell).strip()] equals
    its own (later rows with the same key are ignored, and two empty key
    cells match as ["nan"]), and NaN when no email row has its key. *)
Theorem merge_email_lookup (df_data df_email : table)
  (join_col_data join_col_email email_col : string) cols rs
  (Hnew : ~ In email_col (t_columns df_data))
  (Hwf : forall r, In r (t_rows df_data) -> forall c, In c (map fst (r_cells r)) ->
                   In c (t_columns df_data))
  (Hname : email_col <> join_key_col) :
  merge_email_data df_data df_email join_col_data join_col_email email_col = Some (cols, rs) ->
  cols = filter (fun c => negb (String.eqb c join_key_col)) (t_columns df_data) ++ [email_col] /\
  forall i r r', nth_error (t_rows df_data) i = Some r -> nth_error rs i = Some r' ->
    ((forall er, In er (t_rows df_email) ->
                 join_key join_col_email er <> join_key join_col_data r) ->
     cell r' email_col = VNaN) /\
    (forall pre er post, t_rows df_email = pre ++ er :: post ->
     (forall e, In e pre -> join_key join_col_email e <> join_key join_col_data r) ->
     join_key join_col_email er = join_key join_col_data r ->
     cell r' email_col = cell er email_col).
Proof.
  intros H.
  assert (Hov : in_strs email_col
                  (filter (fun c => negb (String.eqb c join_key_col)) (t_columns df_data))
                = false).
  { destruct (in_strs _ _) eqn:E; [|reflexivity].
    apply in_strs_iff, filter_In in E. tauto. }
  assert (Hcell : forall i r r', nth_error (t_rows df_data) i = Some r ->
            nth_error rs i = Some r' ->
            cell r' email_col = merged_email df_email join_col_email email_col
                                  (join_key join_col_data r)).
  { intros i r r' Hi Hr'.
    rewrite (merge_email_data_row _ _ _ _ _ _ _ i r H Hi) in Hr'.
    cbv zeta in Hr'. rewrite Hov in Hr'. inversion Hr'. subst r'. clear Hr'.
    unfold cell. cbn [r_cells]. rewrite assoc_app.
    assert (Hrow : In r (t_rows df_data)) by (eapply nth_error_In; exact Hi).
    rewrite assoc_absent.
    - cbn [assoc]. now rewrite String.eqb_refl.
    - rewrite map_map. cbn [fst]. intros Hin. apply in_map_iff in Hin as [kv [Hk Hkv]].
      rewrite rename_col_same in Hk. subst email_col.
      apply filter_In in Hkv as [Hkv _]. apply Hnew.
      apply (Hwf r Hrow). now apply in_map. }
  split.
  - unfold merge_email_data in H. destruct (_ && _ && _); [|discriminate].
    rewrite Hov in H. inversion H. f_equal.
    rewrite map_ext with (g := fun c => c) by (intros; apply rename_col_same).
    apply map_id.
  - intros i r r' Hi Hr'. rewrite (Hcell i r r' Hi Hr'). unfold merged_email. split.
    + intros Hnone. rewrite find_none_all; [reflexivity|].
      intros er Her. apply String.eqb_neq. exact (Hnone er Her).
    + intros pre er post Hrows Hpre Her. rewrite Hrows, find_first; [reflexivity| |].
      * intros e He. apply String.eqb_neq. exact (Hpre e He).
      * now apply String.eqb_eq.
Qed.

Lemma merge_email_lookup_witness :
  ~ In "이메일" (t_columns data_sheet) /\
  (forall r, In r (t_rows data_sheet) -> forall c, In c (map fst (r_cells r)) ->
             In c (t_columns data_sheet)) /\
  "이메일" <> join_key_col /\
  match merge_email_data data_sheet email_sheet "업체" "업체" "이메일" with
  | Some (cols, r0 :: r1 :: _) =>
      cell r0 "이메일" = VStr "a@x.com" /\ cell r1 "이메일" = VStr "n@x.com"
  | _ => False
  end.
Proof.
  assert (H1 : ~ In "이메일" (t_columns data_sheet))
    by (intros H; apply in_strs_iff in H; vm_compute in H; discriminate H).
  assert (H2 : forall r, In r (t_rows data_sheet) -> forall c, In c (map fst (r_cells r)) ->
                         In c (t_columns data_sheet)).
  { intros r Hr c Hc. apply in_strs_iff.
    destruct Hr as [<-|[<-|[]]]; destruct Hc as [<-|[<-|[]]]; reflexivity. }
  assert (H3 : "이메일" <> join_key_col) by discriminate.
  split; [exact H1 | split; [exact H2 | split; [exact H3|]]].
  destruct (merge_email_data data_sheet email_sheet "업체" "업체" "이메일")
    as [[cols [|r0 [|r1 rs]]]|] eqn:E; try (vm_compute in E; discriminate E).
  destruct (merge_email_lookup _ _ _ _ _ _ _ H1 H2 H3 E) as [_ Hl].
  split.
  - apply (proj2 (Hl 0 (mkRow 0 [("업체", VStr " Acme"); ("금액", VStr "1,234원")]) r0
                    eq_refl eq_refl)
             [mkRow 0 [("업체", VStr "Beta"); ("이메일", VStr "b@x.com")];
              mkRow 1 [("업체", VNaN); ("이메일", VStr "n@x.com")]]
             (mkRow 2 [("업체", VStr "Acme "); ("이메일", VStr "a@x.com")])
             [mkRow 3 [("업체", VStr "Acme"); ("이메일", VStr "a2@x.com")]] eq_refl).
    + intros e [<-|[<-|[]]]; vm_compute; discriminate.
    + vm_compute. reflexivity.
  - apply (proj2 (Hl 1 (mkRow 1 [("업체", VNaN); ("금액", VStr "₩5")]) r1
                    eq_refl eq_refl)
             [mkRow 0 [("업체", VStr "Beta"); ("이메일", VStr "b@x.com")]]
             (mkRow 1 [("업체", VNaN); ("이메일", VStr "n@x.com")])
             [mkRow 2 [("업체", VStr "Acme "); ("이메일", VStr "a@x.com")];
              mkRow 3 [("업체", VStr "Acme"); ("이메일", VStr "a2@x.com")]] eq_refl).
    + intros e [<-|[]]; vm_compute; discriminate.
    + vm_compute. reflexivity.
Defined.

Lemma append_suffix_neq (s a : string) : a <> "" -> (s ++ a)%string <> s.
Proof.
  intros Ha H. apply (f_equal String.length) in H. rewrite str_length_append in H.
  destruct a; [contradiction | simpl in H; lia].
Qed.

Lemma build_group_no_email (srt : list (nat * row) -> list (nat * row))
  (cfg : config) (t : table) k grp g ce :
  email_col_used cfg t = None ->
  build_group srt cfg t k grp = Some (g, ce) ->
  recipient_email g = None /\ has_conflict g = false /\ ce = None.
Proof.
  intros Hu. unfold build_group, email_values. rewrite Hu. cbv zeta.
  destruct (compute_totals cfg t (order_rows srt cfg grp)); [|discriminate].
  intros H. inversion H. subst. repeat split; reflexivity.
Qed.

(** X17: when the data sheet already has a column named like the email
    column, pandas renames the two to [_x] and [_y], so the merged frame has
    no column of that name; grouping it with that email column then gives
    every group the recipient None and reports no conflict. *)
Theorem merge_overlap_drops_email_col (srt : list (nat * row) -> list (nat * row))
  (df_data df_email : table) (join_col_data join_col_email ec : string) cols rs
  (Hold : In ec (t_columns df_data))
  (Hname : ec <> join_key_col) (Hbase : ec <> base_col)
  (cfg : config) (Hcfg : email_col cfg = Some ec)
  (orig : nat -> string -> option string) gs cs :
  merge_email_data df_data df_email join_col_data join_col_email ec = Some (cols, rs) ->
  group_data_with_wildcard srt cfg (mkTable cols rs orig) = Some (gs, cs) ->
  ~ In ec cols /\ cs = [] /\
  forall k g, In (k, g) gs -> recipient_email g = None /\ has_conflict g = false.
Proof.
  intros Hm Hg.
  assert (Hov : in_strs ec
                  (filter (fun c => negb (String.eqb c join_key_col)) (t_columns df_data))
                = true).
  { apply in_strs_iff, filter_In. split; [exact Hold|].
    apply String.eqb_neq in Hname. now rewrite Hname. }
  assert (Hcols : ~ In ec cols).
  { unfold merge_email_data in Hm. destruct (_ && _ && _); [|discriminate].
    rewrite Hov in Hm. inversion Hm. subst cols. clear Hm.
    intros Hin. apply in_app_iff in Hin as [Hin|[Hy|[]]].
    - apply in_map_iff in Hin as [c [Hc _]]. unfold rename_col in Hc.
      destruct (String.eqb c ec) eqn:E.
      + exact (append_suffix_neq ec "_x" ltac:(discriminate) Hc).
      + apply String.eqb_neq in E. exact (E Hc).
    - exact (append_suffix_neq ec "_y" ltac:(discriminate) Hy). }
  assert (Hu : email_col_used cfg (mkTable cols rs orig) = None).
  { unfold email_col_used, frame_has_col. rewrite Hcfg. cbn [t_columns].
    apply String.eqb_neq in Hbase. rewrite Hbase, andb_false_r. cbn [orb].
    destruct (in_strs ec cols) eqn:E; [apply in_strs_iff in E; contradiction|].
    now rewrite andb_false_r. }
  unfold group_data_with_wildcard in Hg.
  split; [exact Hcols|]. split.
  - destruct cs as [|c cs]; [reflexivity|]. exfalso.
    destruct (build_all_conflicts _ _ _ _ _ _ _ _ c Hg (fun c' (H : In c' []) => match H with end)
                (or_introl eq_refl)) as [_ [[]|[kv [grp [g [_ [_ Hb]]]]]]].
    destruct (build_group_no_email _ _ _ _ _ _ _ Hu Hb) as [_ [_ Hce]]. discriminate Hce.
  - intros k g Hin.
    destruct (build_all_in_key _ _ _ _ _ _ _ _ k g Hg Hin)
      as [[]|[kv [grp [ce [_ [_ [_ Hb]]]]]]].
    destruct (build_group_no_email _ _ _ _ _ _ _ Hu Hb) as [H1 [H2 _]]. now split.
Qed.

Lemma merge_overlap_drops_email_col_witness :
  In "이메일" (t_columns data_sheet_with_email) /\ "이메일" <> join_key_col /\
  "이메일" <> base_col /\ email_col (mk_config "first" true false) = Some "이메일" /\
  match merge_email_data data_sheet_with_email email_sheet "업체" "업체" "이메일" with
  | Some (cols, rs) =>
      match group_data_with_wildcard stable_sort01 (mk_config "first" true false)
              (mkTable cols rs (fun _ _ => None)) with
      | Some (gs, cs) =>
          ~ In "이메일" cols /\ cs = [] /\
          forall k g, In (k, g) gs -> recipient_email g = None /\ has_conflict g = false
      | None => False
      end
  | None => False
  end.
Proof.
  assert (H1 : In "이메일" (t_columns data_sheet_with_email)) by (right; right; now left).
  assert (H2 : "이메일" <> join_key_col) by discriminate.
  assert (H3 : "이메일" <> base_col) by discriminate.
  assert (H4 : email_col (mk_config "first" true false) = Some "이메일") by reflexivity.
  split; [exact H1 | split; [exact H2 | split; [exact H3 | split; [exact H4|]]]].
  destruct (merge_email_data data_sheet_with_email email_sheet "업체" "업체" "이메일")
    as [[cols rs]|] eqn:E; [|vm_compute in E; discriminate E].
  pose proof E as E'. vm_compute in E'. injection E' as <- <-.
  destruct (group_data_with_wildcard stable_sort01 (mk_config "first" true false)
              (mkTable _ _ (fun _ _ => None))) as [[gs cs]|] eqn:G;
    [|vm_compute in G; discriminate G].
  exact (merge_overlap_drops_email_col stable_sort01 _ _ _ _ _ _ _ H1 H2 H3 _ H4 _ gs cs E G).
Defined.

(* ------------------------------------------------------------------ *)
(** ** add_log *)

Lemma skipn_suffix_app {A} (n : nat) (l m : list A) :
  skipn (length (skipn (length l - n) l ++ m) - n) (skipn (length l - n) l ++ m) =
  skipn (length (l ++ m) - n) (l ++ m).
Proof.
  rewrite !skipn_app, skipn_skipn, !length_app, length_skipn.
  f_equal; f_equal; lia.
Qed.

Lemma add_log_last (timestamp message level : string) (log : list log_entry) :
  add_log timestamp message level (Some log) =
  let l := log ++ [mkLogEntry timestamp level (level_icon level) message] in
  skipn (length l - 100) l.
Proof.
  unfold add_log. cbv zeta.
  destruct (Nat.ltb 100 _) eqn:E; [reflexivity|].
  apply Nat.ltb_ge in E. replace (_ - 100) with 0 by lia. reflexivity.
Qed.

Lemma replay_log_from (calls : list (string * string * string)) : forall pre,
  replay_log calls (Some (skipn (length pre - 100) pre)) =
  let l := pre ++ map (fun c => match c with
                                | (ts, m, lv) => mkLogEntry ts lv (level_icon lv) m
                                end) calls in
  Some (skipn (length l - 100) l).
Proof.
  unfold replay_log. cbv zeta.
  induction calls as [|[[ts m] lv] calls IH]; intros pre.
  - cbn [fold_left map]. now rewrite app_nil_r.
  - cbn [fold_left map]. rewrite add_log_last. cbv zeta.
    rewrite skipn_suffix_app, IH, <- app_assoc. reflexivity.
Qed.

(** X20: whatever sequence of [add_log] calls is made, the activity log
    holds the entries of the last (at most) 100 calls, oldest first; older
    entries are dropped. *)
Theorem activity_log_last_100 (calls : list (string * string * string)) :
  let entries := map (fun c => match c with
                               | (ts, m, lv) => mkLogEntry ts lv (level_icon lv) m
                               end) calls in
  replay_log calls None =
  match calls with
  | [] => None
  | _ => Some (skipn (length entries - 100) entries)
  end.
Proof.
  cbv zeta. destruct calls as [|[[ts m] lv] calls]; [reflexivity|].
  unfold replay_log. cbn [fold_left].
  assert (H0 : add_log ts m lv None =
               skipn (length [mkLogEntry ts lv (level_icon lv) m] - 100)
                     [mkLogEntry ts lv (level_icon lv) m]) by reflexivity.
  rewrite H0. exact (replay_log_from calls [mkLogEntry ts lv (level_icon lv) m]).
Qed.

(** ** Display cells of numbers *)








(** C6 (code bug): on a sheet whose columns are all numbers, [iterrows]
    yields [numpy.int64] cells, the zero test [isinstance(value, (int,
    float)) and value == 0] fails, and an amount 0 typed as "0원" is
    rendered as "0원" (its original text), not as ""; its total is "". *)
Theorem int64_zero_amount_shows_original_text :
  rows_int64 int64_config int64_table = true /\
  match group_data_with_wildcard stable_sort01 int64_config int64_table with
  | Some ([(k, g)], []) =>
      k = "101" /\ g_rows g = [[("업체", "101"); ("금액", "0원")]] /\
      totals g = [("금액", "")]
  | _ => False
  end.
Proof. vm_compute. auto. Qed.


